(** * build_poi_db: classification and import pipeline

    A shallow embedding of [build_poi_db.py].  Python values are modelled as
    follows.

    - A feature's [properties] is a dict.  Its tags are strings; the entry
      under the key [id], when there is one, is an integer.  The dict is a
      record of the optional id and a [gmap string string] of tags.
    - Coordinates are Python floats, that is binary64 numbers: [float].
      They are numbers: a NaN, which SQLite would store as NULL, is no
      coordinate of a feature collection.
    - The SQLite store is four tables, each the list of its rows.  A table
      has no order of its own (SQLite returns rows by key); the list keeps
      the rows in the order the model added them, and statements about the
      store speak of the rows a table holds and of their keys.
      [INSERT OR IGNORE] on a table keyed by an integer primary key (and
      on an R*Tree table, keyed by its first column) is [insert_or_ignore]:
      an id outside the 64-bit range raises, a row whose key is already
      present is dropped, a row with a NULL key gets the successor of the
      largest key in use, or a key drawn at random once 2^63-1 is in use.
      The attribute tables hold the values bound to the statement; the
      R*Tree tables hold binary32 coordinates, the lower ones rounded down
      and the upper ones rounded up.
    - Failures are Python exceptions: [result] with [Raise].
    - The extraction engine, the files it produces and the keys SQLite
      draws at random are parameters of [build_region] and [main]. *)

From Stdlib Require Import ZArith List String Ascii Floats Uint63 Lia.
From stdpp Require Import base option gmap strings list.

Local Open Scope string_scope.
Local Open Scope list_scope.
Local Open Scope Z_scope.

(** ** Exceptions *)

Inductive exn : Type :=
  | ZeroDivisionError
  | IndexError
  | TypeError
  | OverflowError
  | OperationalError
  | CalledProcessError (status : Z).

Inductive result (A : Type) : Type :=
  | Ok (a : A)
  | Raise (e : exn).
Arguments Ok {A} a.
Arguments Raise {A} e.

Definition bind {A B} (r : result A) (k : A → result B) : result B :=
  match r with
  | Ok a => k a
  | Raise e => Raise e
  end.

Declare Scope py_scope.
Delimit Scope py_scope with py.
Notation "x <- c1 ;; c2" := (bind c1 (fun x => c2))
  (at level 100, c1 at next level, right associativity) : py_scope.
Local Open Scope py_scope.

(** ** Properties (the tag dict) *)

Record properties : Type := {
  prop_id : option Z;
  prop_tags : gmap string string
}.

Definition no_properties : properties := {| prop_id := None; prop_tags := ∅ |}.

(** [props.get(key)] for a tag key. *)
Definition get (props : properties) (key : string) : option string :=
  prop_tags props !! key.

(** [props.get(key, default)]. *)
Definition get_default (props : properties) (key dflt : string) : string :=
  default dflt (get props key).

(** [props.get(key) == lit]. *)
Definition eq_str (v : option string) (lit : string) : bool :=
  bool_decide (v = Some lit).

(** [props.get(key) in (lit1, ..., litn)]. *)
Definition in_strs (v : option string) (lits : list string) : bool :=
  existsb (eq_str v) lits.

(** Truth value of [props.get(key)]: [None] and the empty string are false. *)
Definition truthy (v : option string) : bool :=
  match v with
  | Some s => negb (bool_decide (s = ""))
  | None => false
  end.

(** ** Classification *)

Definition classify (props : properties) : option (Z * string) :=
  (* ---- Places ---- *)
  let place := get props "place" in
  if eq_str place "city" then Some (100, "city") else
  if eq_str place "town" then Some (101, "town") else
  if eq_str place "village" then Some (102, "village") else
  if eq_str place "hamlet" then Some (103, "hamlet") else
  if eq_str place "suburb" then Some (104, "suburb") else
  (* ---- Historic ---- *)
  if eq_str (get props "historic") "castle" then Some (1, "castle") else
  if in_strs (get props "historic") ["abbey"; "monastery"] then Some (2, "abbey") else
  if truthy (get props "historic") then Some (7, get_default props "historic" "") else
  (* ---- Religion ---- *)
  if eq_str (get props "amenity") "place_of_worship"
  then Some (3, get_default props "religion" "worship") else
  (* ---- Food & Drink ---- *)
  if eq_str (get props "amenity") "cafe" then Some (10, "cafe") else
  if eq_str (get props "amenity") "pub" then Some (11, "pub") else
  if eq_str (get props "amenity") "restaurant" then Some (12, "restaurant") else
  if eq_str (get props "amenity") "fast_food" then Some (13, "fast_food") else
  if eq_str (get props "amenity") "bar" then Some (14, "bar") else
  (* ---- Shops ---- *)
  if truthy (get props "shop") then Some (20, get_default props "shop" "") else
  (* ---- Tourism ---- *)
  if in_strs (get props "tourism") ["attraction"; "museum"; "viewpoint"]
  then Some (30, get_default props "tourism" "") else
  (* ---- Leisure ---- *)
  if truthy (get props "leisure") then Some (40, get_default props "leisure" "") else
  (* ---- Nature ---- *)
  if eq_str (get props "natural") "peak" then Some (50, "peak") else
  if eq_str (get props "man_made") "survey_point" then Some (51, "trig_point") else
  None.

Definition classify_geo (props : properties) : option string :=
  if eq_str (get props "place") "island" then Some "island" else
  if eq_str (get props "natural") "peak" then Some "peak" else
  None.

(** The rules of [classify] as an ordered list, in the order in which the
    source tests them; [first_match] takes the first rule that fires. *)

Definition rule : Type := properties → option (Z * string).

Definition rule_eq (key lit : string) (code : Z) (subtype : string) : rule :=
  fun props => if eq_str (get props key) lit then Some (code, subtype) else None.

Definition rule_in (key : string) (lits : list string) (code : Z)
    (subtype : properties → string) : rule :=
  fun props => if in_strs (get props key) lits then Some (code, subtype props) else None.

Definition rule_present (key : string) (code : Z) : rule :=
  fun props =>
    if truthy (get props key) then Some (code, get_default props key "") else None.

Definition place_band : list rule :=
  [ rule_eq "place" "city" 100 "city"; rule_eq "place" "town" 101 "town";
    rule_eq "place" "village" 102 "village"; rule_eq "place" "hamlet" 103 "hamlet";
    rule_eq "place" "suburb" 104 "suburb" ].

Definition historic_band : list rule :=
  [ rule_eq "historic" "castle" 1 "castle";
    rule_in "historic" ["abbey"; "monastery"] 2 (fun _ => "abbey");
    rule_present "historic" 7 ].

Definition religion_band : list rule :=
  [ fun props =>
      if eq_str (get props "amenity") "place_of_worship"
      then Some (3, get_default props "religion" "worship") else None ].

Definition food_band : list rule :=
  [ rule_eq "amenity" "cafe" 10 "cafe"; rule_eq "amenity" "pub" 11 "pub";
    rule_eq "amenity" "restaurant" 12 "restaurant";
    rule_eq "amenity" "fast_food" 13 "fast_food"; rule_eq "amenity" "bar" 14 "bar" ].

Definition shop_band : list rule := [ rule_present "shop" 20 ].

Definition tourism_band : list rule :=
  [ rule_in "tourism" ["attraction"; "museum"; "viewpoint"] 30
      (fun props => get_default props "tourism" "") ].

Definition leisure_band : list rule := [ rule_present "leisure" 40 ].

Definition nature_band : list rule :=
  [ rule_eq "natural" "peak" 50 "peak";
    rule_eq "man_made" "survey_point" 51 "trig_point" ].

Definition source_order : list rule :=
  place_band ++ historic_band ++ religion_band ++ food_band ++ shop_band
    ++ tourism_band ++ leisure_band ++ nature_band.

Fixpoint first_match (rules : list rule) (props : properties) : option (Z * string) :=
  match rules with
  | [] => None
  | r :: rest =>
      match r props with
      | Some out => Some out
      | None => first_match rest props
      end
  end.

(** ** Geometry reduction *)

(** A GeoJSON position is a pair [(lon, lat)]. *)
Definition vertex : Type := float * float.
Definition ring : Type := list vertex.

Inductive geometry : Type :=
  | Point (coordinates : vertex)
  | Polygon (coordinates : list ring)
  | MultiPolygon (coordinates : list (list ring))
  | OtherGeometry (type : string).

(** [l[0]]. *)
Definition index0 {A} (l : list A) : result A :=
  match l with
  | x :: _ => Ok x
  | [] => Raise IndexError
  end.

(** [[poly[0] for poly in coordinates]]. *)
Fixpoint outer_rings (coordinates : list (list ring)) : result (list ring) :=
  match coordinates with
  | [] => Ok []
  | poly :: rest =>
      r <- index0 poly ;;
      rs <- outer_rings rest ;;
      Ok (r :: rs)
  end.

(** The two nested loops: every vertex appends its longitude to [lons] and
    its latitude to [lats].  The accumulator is [(lats, lons)]. *)
Fixpoint append_ring (r : ring) (acc : list float * list float)
    : list float * list float :=
  match r with
  | [] => acc
  | (lon, lat) :: rest => append_ring rest (acc.1 ++ [lat], acc.2 ++ [lon])
  end.

Fixpoint append_rings (rings : list ring) (acc : list float * list float)
    : list float * list float :=
  match rings with
  | [] => acc
  | r :: rest => append_rings rest (append_ring r acc)
  end.

(** [sum(l)]: addition from the left, starting at zero.  (Python 3.12 and
    later carry a correction term along; the additions of the sample inputs
    below are exact, so both give the same result on them.) *)
Definition sum (l : list float) : float := fold_left PrimFloat.add l 0%float.

(** [len(l)] as the float the division converts it to (exact below 2^53). *)
Definition float_of_len (n : nat) : float :=
  PrimFloat.of_uint63 (Uint63.of_Z (Z.of_nat n)).

(** [x / len(l)]: Python raises on a zero divisor. *)
Definition true_div (x : float) (n : nat) : result float :=
  match n with
  | O => Raise ZeroDivisionError
  | S _ => Ok (PrimFloat.div x (float_of_len n))
  end.

Definition centroid_from_geom (geom : geometry) : result (float * float) :=
  rings <- match geom with
           | Polygon coordinates => r <- index0 coordinates ;; Ok [r]
           | MultiPolygon coordinates => outer_rings coordinates
           | Point _ | OtherGeometry _ => Raise TypeError  (* never called on these *)
           end ;;
  let acc := append_rings rings ([], []) in
  let lats := acc.1 in
  let lons := acc.2 in
  x <- true_div (sum lons) (length lons) ;;
  y <- true_div (sum lats) (length lats) ;;
  Ok (x, y).

(** The mean of a list of floats: its sum over its length. *)
Definition mean (l : list float) : float :=
  PrimFloat.div (sum l) (float_of_len (length l)).

(** The vertices the specification averages: ring 0 of a Polygon; ring 0 of
    every polygon of a MultiPolygon, pooled in order. *)
Definition pooled_outer_vertices (geom : geometry) : option (list vertex) :=
  match geom with
  | Polygon (outer :: _) => Some outer
  | MultiPolygon polys =>
      match mapM head polys with
      | Some rings => Some (concat rings)
      | None => None
      end
  | _ => None
  end.

Definition is_empty {A} (l : list A) : bool :=
  match l with
  | [] => true
  | _ :: _ => false
  end.

(** A geometry one of whose rings has no vertex. *)
Definition has_empty_ring (geom : geometry) : bool :=
  match geom with
  | Polygon coordinates => existsb is_empty coordinates
  | MultiPolygon coordinates => existsb (existsb is_empty) coordinates
  | Point _ | OtherGeometry _ => false
  end.

(** ** Name derivation *)

Definition is_upper (c : ascii) : bool :=
  ((65 <=? N_of_ascii c) && (N_of_ascii c <=? 90))%N.

Definition is_lower (c : ascii) : bool :=
  ((97 <=? N_of_ascii c) && (N_of_ascii c <=? 122))%N.

Definition to_upper (c : ascii) : ascii :=
  if is_lower c then ascii_of_N (N_of_ascii c - 32) else c.

Definition to_lower (c : ascii) : ascii :=
  if is_upper c then ascii_of_N (N_of_ascii c + 32) else c.

(** [s.replace(old, new)] for one-character [old] and [new]. *)
Fixpoint replace (old new : ascii) (s : string) : string :=
  match s with
  | EmptyString => EmptyString
  | String c rest =>
      String (if bool_decide (c = old) then new else c) (replace old new rest)
  end.

(** [s.title()] on ASCII: a letter is upper-cased when the character before
    it is not a letter, lower-cased otherwise. *)
Fixpoint title_from (previous_is_cased : bool) (s : string) : string :=
  match s with
  | EmptyString => EmptyString
  | String c rest =>
      String (if previous_is_cased then to_lower c else to_upper c)
             (title_from (is_upper c || is_lower c) rest)
  end.

Definition title (s : string) : string := title_from false s.

(** Lines 226-230: the [name] tag, or the name made from [historic]. *)
Definition derived_name (props : properties) : option string :=
  let name := get props "name" in
  if negb (truthy name)
     && in_strs (get props "historic") ["standing_stone"; "megalith"; "stone"]
  then Some (title (replace "_" " " (get_default props "historic" "")))
  else name.

(** ** The store *)

Record poi_row : Type := {
  poi_id : Z;
  poi_lat : float;
  poi_lon : float;
  poi_type : Z;
  poi_name : string;
  poi_subtype : string;
  poi_tags : properties
}.

Record geo_row : Type := {
  geo_id : Z;
  geo_lat : float;
  geo_lon : float;
  geo_kind : string;
  geo_name : option string;
  geo_tags : properties
}.

Record index_row : Type := {
  idx_id : Z;
  minLat : float;
  maxLat : float;
  minLon : float;
  maxLon : float
}.

Record store : Type := {
  pois : list poi_row;
  poi_index : list index_row;
  geo_features : list geo_row;
  geo_index : list index_row
}.

(** [SCHEMA_SQL]: the four tables are dropped and created empty. *)
Definition empty_store : store :=
  {| pois := []; poi_index := []; geo_features := []; geo_index := [] |}.

(** The bounds of a key: SQLite's INTEGER is a signed 64-bit number. *)
Definition max_rowid : Z := 2 ^ 63 - 1.
Definition min_rowid : Z := - 2 ^ 63.

Inductive table : Type :=
  | PoisTable
  | PoiIndexTable
  | GeoFeaturesTable
  | GeoIndexTable.

(** The key SQLite ends up with when it draws keys at random for a table
    whose keys in use are given; [None] when it finds no free key. *)
Definition random_rowids : Type := table → list Z → option Z.

(** The successor of the largest key in use; 1 for an empty table. *)
Definition next_rowid (keys : list Z) : Z :=
  match keys with
  | [] => 1
  | k :: rest => foldr Z.max k rest + 1
  end.

(** The key SQLite gives a row inserted with a NULL key: the successor of
    the largest key, unless the largest key is the largest there is; then a
    free key drawn at random between 1 and 2^62, and "database or disk is
    full" when the draws find none. *)
Definition new_rowid (rnd : random_rowids) (t : table) (keys : list Z) : result Z :=
  if bool_decide (Forall (λ k, k < max_rowid) keys) then Ok (next_rowid keys)
  else
    match rnd t keys with
    | Some k =>
        if bool_decide ((k ∉ keys) ∧ 1 ≤ k ≤ 2 ^ 62) then Ok k
        else Raise OperationalError
    | None => Raise OperationalError
    end.

(** [cur.execute("INSERT OR IGNORE INTO table VALUES (?, ...)", (id, ...))];
    [row] builds the row from its key.  An id that does not fit SQLite's
    INTEGER raises when it is bound. *)
Definition insert_or_ignore {R} (rnd : random_rowids) (t : table) (key : R → Z)
    (rows : list R) (id : option Z) (row : Z → R) : result (list R) :=
  match id with
  | Some i =>
      if bool_decide (min_rowid ≤ i ≤ max_rowid)
      then Ok (if bool_decide (i ∈ (key <$> rows)) then rows else rows ++ [row i])
      else Raise OverflowError
  | None =>
      k <- new_rowid rnd t (key <$> rows) ;;
      Ok (rows ++ [row k])
  end.

(** *** Coordinates of the R*Tree *)

(** [(float)d]: the binary32 number nearest to [d], ties to even, read back
    as a binary64 number. *)
Definition to_binary32 (d : float) : float :=
  match Prim2SF d with
  | S754_finite s m e =>
      SF2Prim (binary_normalize 24 128 (if s then Zneg m else Zpos m) e s)
  | _ => d
  end.

Definition RNDTOWARDS : float := (1 - 1 / 8388608)%float.
Definition RNDAWAY : float := (1 + 1 / 8388608)%float.

(** The R*Tree's conversion of a lower coordinate: when the nearest binary32
    number is above [d], [d] is first moved one part in 2^23 down. *)
Definition rtreeValueDown (d : float) : float :=
  let f := to_binary32 d in
  if (d <? f)%float
  then to_binary32 (d * (if (d <? 0)%float then RNDAWAY else RNDTOWARDS))%float
  else f.

(** The same for an upper coordinate. *)
Definition rtreeValueUp (d : float) : float :=
  let f := to_binary32 d in
  if (f <? d)%float
  then to_binary32 (d * (if (d <? 0)%float then RNDTOWARDS else RNDAWAY))%float
  else f.

(** The row the R*Tree keeps for [(id, lat, lat, lon, lon)].  (Its test that
    a lower coordinate is not above the upper one is between two roundings of
    one number.) *)
Definition index_entry (lat lon : float) (i : Z) : index_row :=
  {| idx_id := i;
     minLat := rtreeValueDown lat; maxLat := rtreeValueUp lat;
     minLon := rtreeValueDown lon; maxLon := rtreeValueUp lon |}.

(** ** One region *)

Record feature : Type := {
  feat_geometry : geometry;
  feat_properties : option properties
}.

Record build_state : Type := {
  cur : store;
  imported : Z
}.

(** [feat.get("properties", {})]. *)
Definition props_of (feat : feature) : properties :=
  default no_properties (feat_properties feat).

(** A truthy value, or [None]: the test of [if v:] together with [v]. *)
Definition if_truthy (v : option string) : option string :=
  if truthy v then v else None.

(** Lines 192-197; [None] is the [continue] of the last branch. *)
Definition reduce_geometry (geom : geometry) : option (result (float * float)) :=
  match geom with
  | Point coordinates => Some (Ok coordinates)
  | Polygon _ | MultiPolygon _ => Some (centroid_from_geom geom)
  | OtherGeometry _ => None
  end.

(** Lines 205-221: the attribute insert, then the index insert, each with
    the same id.  [lat] and [lon] are numbers, so the NOT NULL columns of
    the attribute row are filled. *)
Definition insert_geo (rnd : random_rowids) (db : store) (osm_id : option Z)
    (lat lon : float) (geo_kind : string) (props : properties) : result store :=
  features <-
    insert_or_ignore rnd GeoFeaturesTable geo_id (geo_features db) osm_id (fun i =>
      {| geo_id := i; geo_lat := lat; geo_lon := lon; geo_kind := geo_kind;
         geo_name := get props "name"; geo_tags := props |}) ;;
  index <-
    insert_or_ignore rnd GeoIndexTable idx_id (geo_index db) osm_id
      (index_entry lat lon) ;;
  Ok {| pois := pois db; poi_index := poi_index db;
        geo_features := features; geo_index := index |}.

(** Lines 241-249: the same for a POI; [name] is not empty. *)
Definition insert_poi (rnd : random_rowids) (db : store) (osm_id : option Z)
    (lat lon : float) (poi_type : Z) (name subtype : string) (props : properties)
    : result store :=
  rows <-
    insert_or_ignore rnd PoisTable poi_id (pois db) osm_id (fun i =>
      {| poi_id := i; poi_lat := lat; poi_lon := lon; poi_type := poi_type;
         poi_name := name; poi_subtype := subtype; poi_tags := props |}) ;;
  index <-
    insert_or_ignore rnd PoiIndexTable idx_id (poi_index db) osm_id
      (index_entry lat lon) ;;
  Ok {| pois := rows; poi_index := index;
        geo_features := geo_features db; geo_index := geo_index db |}.

(** The body of the loop over [data["features"]], lines 188-251.  A
    [continue] returns the state as it is. *)
Definition loop_body (rnd : random_rowids) (st : build_state) (feat : feature)
    : result build_state :=
  let geom := feat_geometry feat in
  let props := props_of feat in
  match reduce_geometry geom with
  | None => Ok st
  | Some reduced =>
      lonlat <- reduced ;;
      let lon := lonlat.1 in
      let lat := lonlat.2 in
      let osm_id := prop_id props in
      (* ---- Geographic features first ---- *)
      match if_truthy (classify_geo props) with
      | Some geo_kind =>
          db <- insert_geo rnd (cur st) osm_id lat lon geo_kind props ;;
          Ok {| cur := db; imported := imported st |}
      | None =>
          (* ---- POIs ---- *)
          match if_truthy (derived_name props) with
          | None => Ok st
          | Some name =>
              match classify props with
              | None => Ok st
              | Some (poi_type, subtype) =>
                  db <- insert_poi rnd (cur st) osm_id lat lon
                          poi_type name subtype props ;;
                  Ok {| cur := db; imported := imported st + 1 |}
              end
          end
      end
  end.

Fixpoint for_features (rnd : random_rowids) (features : list feature)
    (st : build_state) : result build_state :=
  match features with
  | [] => Ok st
  | feat :: rest =>
      st' <- loop_body rnd st feat ;;
      for_features rnd rest st'
  end.

Definition initial_state : build_state := {| cur := empty_store; imported := 0 |}.

(** Lines 178-251: the schema is created, then every feature is imported. *)
Definition import_features (rnd : random_rowids) (features : list feature)
    : result build_state :=
  for_features rnd features initial_state.

(** ** Properties of the store *)

(** An index row that is the R*Tree's row for two coordinates. *)
Definition brackets (lat lon : float) (x : index_row) : Prop :=
  minLat x = rtreeValueDown lat ∧ maxLat x = rtreeValueUp lat
  ∧ minLon x = rtreeValueDown lon ∧ maxLon x = rtreeValueUp lon.

(** An index row that is the R*Tree's row for the point of an attribute
    row, under the same key. *)
Definition poi_indexed (p : poi_row) (x : index_row) : Prop :=
  idx_id x = poi_id p ∧ brackets (poi_lat p) (poi_lon p) x.

Definition geo_indexed (g : geo_row) (x : index_row) : Prop :=
  idx_id x = geo_id g ∧ brackets (geo_lat g) (geo_lon g) x.

(** Every attribute row has its index row, and no key occurs twice in an
    attribute table. *)
Definition consistent (db : store) : Prop :=
  Forall2 poi_indexed (pois db) (poi_index db)
  ∧ Forall2 geo_indexed (geo_features db) (geo_index db)
  ∧ NoDup (poi_id <$> pois db)
  ∧ NoDup (geo_id <$> geo_features db).




(** Every key of the attribute tables is below a bound. *)
Definition below (bound : Z) (db : store) : Prop :=
  Forall (λ k, k < bound) (poi_id <$> pois db)
  ∧ Forall (λ k, k < bound) (geo_id <$> geo_features db).



(** The ids of an extract leave the largest key alone: they are below a
    bound that the extract cannot push up to 2^63-1. *)
Definition ids_clear (bound : Z) (features : list feature) : Prop :=
  1 ≤ bound
  ∧ bound + Z.of_nat (length features) ≤ max_rowid
  ∧ Forall (λ feat, ∀ i, prop_id (props_of feat) = Some i → i < bound) features.

(** What one iteration can do: nothing, one geo insert, or one POI insert. *)
Inductive outcome (rnd : random_rowids) (st : build_state) (feat : feature)
    : build_state → Prop :=
  | Skipped : outcome rnd st feat st
  | GeoInserted lon lat kind db :
      reduce_geometry (feat_geometry feat) = Some (Ok (lon, lat)) →
      classify_geo (props_of feat) = Some kind →
      insert_geo rnd (cur st) (prop_id (props_of feat)) lat lon kind (props_of feat)
      = Ok db →
      outcome rnd st feat {| cur := db; imported := imported st |}
  | PoiInserted lon lat name poi_type subtype db :
      reduce_geometry (feat_geometry feat) = Some (Ok (lon, lat)) →
      classify_geo (props_of feat) = None →
      derived_name (props_of feat) = Some name →
      name ≠ "" →
      classify (props_of feat) = Some (poi_type, subtype) →
      insert_poi rnd (cur st) (prop_id (props_of feat)) lat lon
        poi_type name subtype (props_of feat)
      = Ok db →
      outcome rnd st feat {| cur := db; imported := imported st + 1 |}.

(** One step of a table and its index: both stay, or both gain one row, the
    index row being the one of the attribute row, under a key that is new. *)
Definition pair_step {R} (indexed : R → index_row → Prop) (key : R → Z)
    (rows rows' : list R) (index index' : list index_row) : Prop :=
  (rows' = rows ∧ index' = index)
  ∨ (∃ r x, rows' = rows ++ [r] ∧ index' = index ++ [x]
            ∧ indexed r x ∧ key r ∉ (key <$> rows)).

(** The state a list of features leaves, when the import does not raise. *)
Definition state_after (rnd : random_rowids) (features : list feature)
    : build_state :=
  match for_features rnd features initial_state with
  | Ok st => st
  | Raise _ => initial_state
  end.

(** ** The run *)

(** The two invocations of the extraction engine, by the extract they work
    on: [osmium tags-filter pbf --overwrite --output=filtered tags...] and
    [osmium export filtered --overwrite -o geojson]. *)
Inductive command : Type :=
  | TagsFilter (pbf_file : string) (tags : list string)
  | Export (pbf_file : string).

Definition extract_of (cmd : command) : string :=
  match cmd with
  | TagsFilter pbf_file _ => pbf_file
  | Export pbf_file => pbf_file
  end.

(** What the program finds outside itself: the exit status of the engine on
    a command, the lines of the tag file, the features of the file the
    export step writes for an extract, and the keys SQLite draws at random
    while the database of an extract is built. *)
Record environment : Type := {
  osmium : command → Z;
  load_tags : list string;
  geojson : string → list feature;
  random_rowid : string → random_rowids
}.

(** What a run leaves behind: the commands it executed, the databases it
    committed and the counts it reported, oldest first. *)
Record world : Type := {
  executed : list command;
  databases : list (string * store);
  reported : list (string * Z)
}.

Definition initial_world : world :=
  {| executed := []; databases := []; reported := [] |}.

Definition action (A : Type) : Type := world → result A * world.

Definition and_then {A B} (m : action A) (k : A → action B) : action B :=
  fun w =>
    match m w with
    | (Ok a, w') => k a w'
    | (Raise e, w') => (Raise e, w')
    end.

Notation "m1 ;;; m2" := (and_then m1 (fun _ => m2))
  (at level 100, m2 at level 200, right associativity) : py_scope.

(** [subprocess.run(cmd, check=True)]. *)
Definition run (env : environment) (cmd : command) : action unit :=
  fun w =>
    let w' := {| executed := executed w ++ [cmd]; databases := databases w;
                 reported := reported w |} in
    if bool_decide (osmium env cmd = 0) then (Ok tt, w')
    else (Raise (CalledProcessError (osmium env cmd)), w').

(** Lines 178-261: import, commit, report. *)
Definition load_and_commit (env : environment) (pbf_file : string) : action unit :=
  fun w =>
    match import_features (random_rowid env pbf_file) (geojson env pbf_file) with
    | Ok st =>
        (Ok tt, {| executed := executed w;
                   databases := databases w ++ [(pbf_file, cur st)];
                   reported := reported w ++ [(pbf_file, imported st)] |})
    | Raise e => (Raise e, w)
    end.

Definition build_region (env : environment) (pbf_file : string) : action unit :=
  let tags := load_tags env in
  run env (TagsFilter pbf_file tags) ;;;
  run env (Export pbf_file) ;;;
  load_and_commit env pbf_file.

Fixpoint for_regions (env : environment) (pbf_files : list string) : action unit :=
  match pbf_files with
  | [] => fun w => (Ok tt, w)
  | pbf :: rest => build_region env pbf ;;; for_regions env rest
  end.

(** [main], with the exit status of the process: 1 after [sys.exit(1)] and
    after an exception nobody catches, 0 otherwise. *)
Definition main (env : environment) (pbf_files : list string) : Z * world :=
  match pbf_files with
  | [] => (1, initial_world)
  | _ =>
      match for_regions env pbf_files initial_world with
      | (Ok _, w) => (0, w)
      | (Raise _, w) => (1, w)
      end
  end.

(** What a build adds to the world: commands on its own extract, and at most
    its own database. *)
Definition extends (names : list string) (w w' : world) : Prop :=
  ∃ log dbs,
    executed w' = executed w ++ log
    ∧ databases w' = databases w ++ dbs
    ∧ Forall (λ cmd, extract_of cmd ∈ names) log
    ∧ Forall (λ d : string * store, d.1 ∈ names) dbs.

(** ** Reading aids for the run *)

(** The two commands of a build, in the order [build_region] runs them. *)
Definition commands_of (env : environment) (pbf_file : string) : list command :=
  [TagsFilter pbf_file (load_tags env); Export pbf_file].

(** A build that reaches its end: both steps of the engine exit 0 and the
    import raises nothing. *)
Definition builds (env : environment) (pbf_file : string) : bool :=
  bool_decide (osmium env (TagsFilter pbf_file (load_tags env)) = 0)
  && bool_decide (osmium env (Export pbf_file) = 0)
  && match import_features (random_rowid env pbf_file) (geojson env pbf_file) with
     | Ok _ => true
     | Raise _ => false
     end.

(** ** The tag file *)

(** [load_tags], lines 30-36, as a function of the lines of the tag file, each
    with its line end as the file iterator yields it.  Lines are ASCII. *)
Module TagFile.

(** [c.isspace()] on ASCII: tab to carriage return, the four separators
    and the space. *)
Definition is_space (c : ascii) : bool :=
  ((9 <=? N_of_ascii c) && (N_of_ascii c <=? 13)
   || (28 <=? N_of_ascii c) && (N_of_ascii c <=? 32))%N.

Fixpoint lstrip (s : string) : string :=
  match s with
  | EmptyString => EmptyString
  | String c rest => if is_space c then lstrip rest else s
  end.

Fixpoint rstrip (s : string) : string :=
  match s with
  | EmptyString => EmptyString
  | String c rest =>
      match rstrip rest with
      | EmptyString => if is_space c then EmptyString else String c EmptyString
      | kept => String c kept
      end
  end.

(** [s.strip()]. *)
Definition strip (s : string) : string := rstrip (lstrip s).

(** [s.startswith("#")]. *)
Definition is_comment (s : string) : bool :=
  match s with
  | String "#" _ => true
  | _ => false
  end.

Definition non_empty (s : string) : bool :=
  match s with
  | EmptyString => false
  | String _ _ => true
  end.

(** The filter of the comprehension: [line.strip() and not
    line.startswith("#")]. *)
Definition keeps (line : string) : bool :=
  non_empty (strip line) && negb (is_comment line).

Fixpoint load_tags (lines : list string) : list string :=
  match lines with
  | [] => []
  | line :: rest =>
      if keeps line then strip line :: load_tags rest else load_tags rest
  end.

Definition first_char (s : string) : option ascii :=
  match s with
  | EmptyString => None
  | String c _ => Some c
  end.

Fixpoint last_char (s : string) : option ascii :=
  match s with
  | EmptyString => None
  | String c EmptyString => Some c
  | String _ rest => last_char rest
  end.

End TagFile.

(** ** Reading aids for the loop *)

(** The geometry with every polygon cut down to its first ring. *)
Definition without_holes (geom : geometry) : geometry :=
  match geom with
  | Polygon coordinates => Polygon (take 1 coordinates)
  | MultiPolygon coordinates => MultiPolygon (take 1 <$> coordinates)
  | Point _ | OtherGeometry _ => geom
  end.

(** What the loop body decides for a record, before it touches the store:
    the branches of lines 192-237. *)
Inductive effect : Type :=
  | NoEffect
  | Raises (e : exn)
  | GeoInsert (lat lon : float) (geo_kind : string)
  | PoiInsert (lat lon : float) (poi_type : Z) (name subtype : string).

Definition effect_of (feat : feature) : effect :=
  let props := props_of feat in
  match reduce_geometry (feat_geometry feat) with
  | None => NoEffect
  | Some (Raise e) => Raises e
  | Some (Ok lonlat) =>
      match if_truthy (classify_geo props) with
      | Some geo_kind => GeoInsert lonlat.2 lonlat.1 geo_kind
      | None =>
          match if_truthy (derived_name props) with
          | None => NoEffect
          | Some name =>
              match classify props with
              | None => NoEffect
              | Some (poi_type, subtype) =>
                  PoiInsert lonlat.2 lonlat.1 poi_type name subtype
              end
          end
      end
  end.

(** The two inserts of lines 205-221 and 241-251. *)
Definition perform (rnd : random_rowids) (st : build_state) (feat : feature)
    (eff : effect) : result build_state :=
  match eff with
  | NoEffect => Ok st
  | Raises e => Raise e
  | GeoInsert lat lon geo_kind =>
      db <- insert_geo rnd (cur st) (prop_id (props_of feat)) lat lon geo_kind
              (props_of feat) ;;
      Ok {| cur := db; imported := imported st |}
  | PoiInsert lat lon poi_type name subtype =>
      db <- insert_poi rnd (cur st) (prop_id (props_of feat)) lat lon
              poi_type name subtype (props_of feat) ;;
      Ok {| cur := db; imported := imported st + 1 |}
  end.

(** A record that reaches [imported += 1]. *)
Definition counted (feat : feature) : bool :=
  match effect_of feat with
  | PoiInsert _ _ _ _ _ => true
  | _ => false
  end.

(** Two records bound for the same pair of tables. *)
Definition same_tables (first second : feature) : Prop :=
  match effect_of first, effect_of second with
  | GeoInsert _ _ _, GeoInsert _ _ _ => True
  | PoiInsert _ _ _ _ _, PoiInsert _ _ _ _ _ => True
  | _, _ => False
  end.

(** ** Reading aids for the classifier *)

(** The tag keys [classify] reads. *)
Definition classifying_keys : list string :=
  ["place"; "historic"; "amenity"; "religion"; "shop"; "tourism"; "leisure";
   "natural"; "man_made"].

(** The type codes [classify] can return. *)
Definition type_codes : list Z :=
  [100; 101; 102; 103; 104; 1; 2; 7; 3; 10; 11; 12; 13; 14; 20; 30; 40; 50; 51].

Definition place_values : list string :=
  ["city"; "town"; "village"; "hamlet"; "suburb"].

(** ** File names *)

(** Lines 154-159: the names [build_region] derives from the file name of an
    extract (the last component of its path).  Names are ASCII. *)
Module RegionName.

(** [name.rfind(".")]. *)
Fixpoint rfind_dot (name : string) : option nat :=
  match name with
  | EmptyString => None
  | String c rest =>
      match rfind_dot rest with
      | Some i => Some (S i)
      | None => if Ascii.eqb c "." then Some O else None
      end
  end.

(** [name[:i]]. *)
Fixpoint take_chars (i : nat) (name : string) : string :=
  match i, name with
  | S j, String c rest => String c (take_chars j rest)
  | _, _ => EmptyString
  end.

(** [Path.stem]: the name without its last suffix; a dot that starts or
    ends the name does not begin a suffix.  (Later Python versions treat
    names that end in a dot or consist of dots otherwise; names that end in
    .pbf after another character are not concerned.) *)
Definition stem (name : string) : string :=
  match rfind_dot name with
  | Some i =>
      if ((0 <? i) && (i <? String.length name - 1))%nat
      then take_chars i name else name
  | None => name
  end.

(** [s.startswith(p)]. *)
Fixpoint starts_with (p s : string) : bool :=
  match p, s with
  | EmptyString, _ => true
  | String a p', String b s' => Ascii.eqb a b && starts_with p' s'
  | String _ _, EmptyString => false
  end.

(** [s.replace(old, new)] for a non-empty [old]: occurrences are taken from
    the left and do not overlap; [skip] counts the characters of the
    occurrence under way that are still to be passed over. *)
Fixpoint replace_from (skip : nat) (old new s : string) : string :=
  match s with
  | EmptyString => EmptyString
  | String c rest =>
      match skip with
      | S k => replace_from k old new rest
      | O =>
          if starts_with old s
          then new +:+ replace_from (String.length old - 1) old new rest
          else String c (replace_from 0 old new rest)
      end
  end.

Definition replace_all (old new s : string) : string := replace_from 0 old new s.

(** [pbf_file.stem.replace("-latest", "")]. *)
Definition region_name (name : string) : string :=
  replace_all "-latest" "" (stem name).

Definition filtered_pbf (name : string) : string :=
  region_name name +:+ "-filtered.osm.pbf".

Definition geojson (name : string) : string := region_name name +:+ ".geojson".

Definition sqlite_db (name : string) : string := region_name name +:+ ".sqlite".

Fixpoint has_char (c : ascii) (s : string) : bool :=
  match s with
  | EmptyString => false
  | String c' rest => Ascii.eqb c c' || has_char c rest
  end.

End RegionName.

(** ** Sample inputs *)

(** Draws that find no key. *)
Definition no_rowids : random_rowids := λ _ _, None.

Definition tags_of (l : list (string * string)) : properties :=
  {| prop_id := None; prop_tags := list_to_map l |}.

Definition castle_city : properties :=
  tags_of [("historic", "castle"); ("place", "city")].

Definition with_id (i : Z) (l : list (string * string)) : properties :=
  {| prop_id := Some i; prop_tags := list_to_map l |}.

Definition point (lon lat : float) (props : properties) : feature :=
  {| feat_geometry := Point (lon, lat); feat_properties := Some props |}.

Definition square_ring : ring :=
  [(0, 0); (0, 2); (2, 2); (2, 0); (0, 0)]%float.

(** The binary64 number nearest to 0.8, which Python prints as [0.8]. *)
Definition f0_8 : float := 0x1.999999999999ap-1%float.

Definition cardiff : feature :=
  point (-3.25) 51.5 (with_id 1 [("name", "Cardiff"); ("place", "city")]).

Definition the_crown : feature :=
  point (-3.5) 51.75 (with_id 2 [("name", "The Crown"); ("amenity", "pub")]).

Definition castell : feature :=
  {| feat_geometry := Polygon [square_ring];
     feat_properties :=
       Some (with_id 3 [("name", "Castell Coch"); ("historic", "castle")]) |}.

Definition snowdon : feature :=
  point (-4.0) 53.0 (with_id 4 [("name", "Snowdon"); ("natural", "peak")]).

Definition unnamed_cafe : feature :=
  point (-3.0) 52.0 (with_id 5 [("amenity", "cafe")]).

Definition crown_again : feature :=
  point (-3.5) 51.75 (with_id 2 [("name", "Crown Inn"); ("amenity", "pub")]).

Definition empty_ring_feature : feature :=
  {| feat_geometry := Polygon [[]];
     feat_properties := Some (with_id 6 [("name", "Llyn"); ("leisure", "park")]) |}.

Definition crown_hill : feature :=
  point (-3.5) 51.75 (with_id 2 [("name", "Crown Hill"); ("natural", "peak")]).

Definition cafe_without_id : feature :=
  point (-3.0) 52.0 (tags_of [("name", "Caffi"); ("amenity", "cafe")]).

Definition standing_stone : feature :=
  point (-3.75) 52.5 (with_id 7 [("historic", "standing_stone")]).

Definition old_chapel : properties :=
  with_id 8 [("name", "Capel"); ("historic", "church");
             ("amenity", "place_of_worship"); ("religion", "christian")].

Definition bakery_with_id_2 : feature :=
  point (-3.0) 52.0 (with_id 2 [("name", "Popty"); ("shop", "bakery")]).

(** A pub under the largest key there is, and a bakery under the key 5. *)
Definition last_pub : feature :=
  point (-3.5) 51.75 (with_id max_rowid [("name", "Y Olaf"); ("amenity", "pub")]).

Definition bakery_with_id_5 : feature :=
  point (-3.0) 52.0 (with_id 5 [("name", "Popty"); ("shop", "bakery")]).

(** Draws that end on 5 for pois and on 6 for poi_index. *)
Definition five_and_six : random_rowids :=
  λ t _, match t with
         | PoisTable => Some 5
         | PoiIndexTable => Some 6
         | _ => None
         end.

Definition synthetic_extract : list feature :=
  [cardiff; the_crown; castell; snowdon; unnamed_cafe; crown_again].

(** An engine that always succeeds and exports the synthetic extract. *)
Definition one_region : environment :=
  {| osmium := λ _, 0;
     load_tags := ["n/amenity"; "n/historic"; "n/natural=peak"];
     geojson := λ _, synthetic_extract;
     random_rowid := λ _, no_rowids |}.

(** An engine whose export step exits with status 1 on the second extract. *)
Definition failing_export : environment :=
  {| osmium := λ cmd,
       match cmd with
       | Export pbf_file => if String.eqb pbf_file "b.osm.pbf" then 1 else 0
       | TagsFilter _ _ => 0
       end;
     load_tags := ["n/amenity"];
     geojson := λ _, synthetic_extract;
     random_rowid := λ _, no_rowids |}.

(** An engine that always succeeds; the second extract holds a Polygon
    whose ring is empty. *)
Definition bad_second_extract : environment :=
  {| osmium := λ _, 0;
     load_tags := ["n/amenity"];
     geojson := λ pbf_file,
       if String.eqb pbf_file "b.osm.pbf" then [cardiff; empty_ring_feature]
       else synthetic_extract;
     random_rowid := λ _, no_rowids |}.

(** An engine whose filter step exits with status 2 on the first extract. *)
Definition failing_filter : environment :=
  {| osmium := λ cmd,
       match cmd with
       | TagsFilter pbf_file _ => if String.eqb pbf_file "a.osm.pbf" then 2 else 0
       | Export _ => 0
       end;
     load_tags := ["n/amenity"];
     geojson := λ _, synthetic_extract;
     random_rowid := λ _, no_rowids |}.

(** * Theorems *)

Ltac first_rule :=
  match goal with
  | |- (if ?b then _ else _) = _ => destruct b; [reflexivity | cbv iota]
  end.

Lemma classify_first_match (props : properties) :
  classify props = first_match source_order props.
Proof.
  unfold classify, source_order, place_band, historic_band, religion_band,
    food_band, shop_band, tourism_band, leisure_band, nature_band.
  cbn [app first_match]. unfold rule_eq, rule_in, rule_present.
  repeat first_rule. reflexivity.
Qed.


(** ** Classification order *)

(** C1, the claim as it is written, fails: historic=castle with place=city is
    a city for [classify]. *)
Lemma classify_castle_city_counterexample :
  ¬ (∀ props : properties,
        get props "historic" = Some "castle" →
        get props "place" = Some "city" →
        classify props = Some (1, "castle")).
Proof.
  intros H. specialize (H castle_city eq_refl eq_refl).
  vm_compute in H. discriminate H.
Qed.

(** C1, amended: [classify] tests its rules first-match-wins in the order
    place, historic, religion, food and drink, shop, tourism, leisure,
    nature; so every tag mapping with both historic=castle and place=city is
    classified (100, "city"), not (1, "castle"). *)
Theorem classify_place_before_historic (props : properties) :
  get props "historic" = Some "castle" →
  get props "place" = Some "city" →
  classify props = first_match source_order props
  ∧ classify props = Some (100, "city")
  ∧ classify props ≠ Some (1, "castle").
Proof.
  intros _ Hplace. split; [apply classify_first_match|].
  assert (classify props = Some (100, "city")) as ->; [|by split].
  unfold classify. rewrite Hplace. reflexivity.
Qed.

Lemma classify_place_before_historic_witness :
  classify castle_city = first_match source_order castle_city
  ∧ classify castle_city = Some (100, "city")
  ∧ classify castle_city ≠ Some (1, "castle").
Proof.
  apply (classify_place_before_historic castle_city); reflexivity.
Defined.

(** ** Geometry reduction *)

Lemma append_ring_spec (r : ring) (acc : list float * list float) :
  append_ring r acc = (acc.1 ++ r.*2, acc.2 ++ r.*1).
Proof.
  revert acc. induction r as [|[lon lat] r IH]; intros [lats lons]; simpl.
  - by rewrite !app_nil_r.
  - rewrite IH. simpl. by rewrite <- !app_assoc.
Qed.

Lemma append_rings_spec (rings : list ring) (acc : list float * list float) :
  append_rings rings acc
  = (acc.1 ++ (concat rings).*2, acc.2 ++ (concat rings).*1).
Proof.
  revert acc. induction rings as [|r rings IH]; intros [lats lons]; simpl.
  - by rewrite !app_nil_r.
  - rewrite IH, append_ring_spec. simpl. by rewrite !fmap_app, !app_assoc.
Qed.

Lemma outer_rings_heads (polys : list (list ring)) (rings : list ring) :
  mapM head polys = Some rings → outer_rings polys = Ok rings.
Proof.
  intros H. apply mapM_Some_1 in H.
  induction H as [|poly r polys rings Hhead _ IH]; [reflexivity|].
  destruct poly as [|r' holes]; [discriminate Hhead|].
  simpl in *. inversion Hhead; subst. by rewrite IH.
Qed.

Lemma true_div_mean (l : list float) :
  l ≠ [] → true_div (sum l) (length l) = Ok (mean l).
Proof. by destruct l. Qed.

(** C3: on a Polygon the result is the unweighted mean of the longitudes and
    of the latitudes of the outer ring's vertices, the repeated closing vertex
    counted; on a MultiPolygon the same mean over the pooled outer rings; the
    square ring (0,0),(0,2),(2,2),(2,0),(0,0) gives (0.8, 0.8). *)
Theorem centroid_is_unweighted_mean (geom : geometry) (vs : list vertex) :
  pooled_outer_vertices geom = Some vs →
  vs ≠ [] →
  centroid_from_geom geom = Ok (mean (vs.*1), mean (vs.*2))
  ∧ centroid_from_geom (Polygon [square_ring]) = Ok (f0_8, f0_8).
Proof.
  intros Hvs Hne. split; [|reflexivity].
  assert (∃ rings,
    match geom with
    | Polygon coordinates => r <- index0 coordinates ;; Ok [r]
    | MultiPolygon coordinates => outer_rings coordinates
    | Point _ | OtherGeometry _ => Raise TypeError
    end = Ok rings ∧ concat rings = vs) as (rings & Hrings & Hcat).
  { destruct geom as [|[|outer holes]|polys|];
      unfold pooled_outer_vertices in Hvs; try discriminate Hvs.
    - inversion Hvs; subst. exists [vs]. simpl. by rewrite app_nil_r.
    - match type of Hvs with
      | match ?m with _ => _ end = _ => destruct m as [rings|] eqn:Hheads
      end; [|discriminate Hvs].
      inversion Hvs; subst. exists rings. by rewrite (outer_rings_heads _ _ Hheads). }
  unfold centroid_from_geom. rewrite Hrings. simpl.
  rewrite append_rings_spec, Hcat. simpl.
  rewrite !true_div_mean; [done| |].
  - intros E. apply Hne. by destruct vs.
  - intros E. apply Hne. by destruct vs.
Qed.

Lemma centroid_is_unweighted_mean_witness :
  centroid_from_geom (Polygon [square_ring])
  = Ok (mean (square_ring.*1), mean (square_ring.*2))
  ∧ centroid_from_geom (Polygon [square_ring]) = Ok (f0_8, f0_8).
Proof.
  apply (centroid_is_unweighted_mean (Polygon [square_ring]) square_ring).
  - reflexivity.
  - discriminate.
Defined.

(** C4, the claim as it is written, fails: a Polygon whose only ring is empty
    is not skipped. *)
Lemma empty_ring_not_skipped_counterexample :
  ¬ (∀ (rnd : random_rowids) (st : build_state) (feat : feature),
        has_empty_ring (feat_geometry feat) = true →
        loop_body rnd st feat = Ok st).
Proof.
  intros H. specialize (H no_rowids initial_state empty_ring_feature eq_refl).
  vm_compute in H. discriminate H.
Qed.

(** C4, amended: a record whose outer ring has no vertex (on a MultiPolygon:
    whose outer rings have no vertex between them) is not skipped.  The mean
    reaches the division by the vertex count, which raises, and the loop over
    the features stops at that record. *)
Theorem empty_outer_ring_raises
    (rnd : random_rowids) (geom : geometry) (props : option properties)
    (st : build_state) (rest : list feature) :
  pooled_outer_vertices geom = Some [] →
  centroid_from_geom geom = Raise ZeroDivisionError
  ∧ for_features rnd
      ({| feat_geometry := geom; feat_properties := props |} :: rest) st
    = Raise ZeroDivisionError.
Proof.
  intros Hvs.
  assert (centroid_from_geom geom = Raise ZeroDivisionError) as Hraise.
  { destruct geom as [|[|outer holes]|polys|];
      unfold pooled_outer_vertices in Hvs; try discriminate Hvs.
    - by inversion Hvs; subst.
    - match type of Hvs with
      | match ?m with _ => _ end = _ => destruct m as [rings|] eqn:Hheads
      end; [|discriminate Hvs].
      inversion Hvs as [Hcat]. unfold centroid_from_geom.
      rewrite (outer_rings_heads _ _ Hheads). simpl.
      by rewrite append_rings_spec, Hcat. }
  split; [exact Hraise|].
  simpl. unfold loop_body. simpl.
  destruct geom as [|rings|polys|]; try discriminate Hvs; simpl;
    by rewrite Hraise.
Qed.

Lemma empty_outer_ring_raises_witness :
  centroid_from_geom (Polygon [[]]) = Raise ZeroDivisionError
  ∧ for_features no_rowids [empty_ring_feature; the_crown]
      (state_after no_rowids [cardiff])
    = Raise ZeroDivisionError.
Proof.
  apply (empty_outer_ring_raises no_rowids (Polygon [[]])). reflexivity.
Defined.

(** ** The loop body *)

Lemma if_truthy_classify_geo (props : properties) :
  if_truthy (classify_geo props) = classify_geo props.
Proof.
  unfold classify_geo.
  repeat match goal with |- context [if ?b then _ else _] => destruct b end;
    reflexivity.
Qed.

Lemma if_truthy_Some (v : option string) (s : string) :
  if_truthy v = Some s → v = Some s ∧ s ≠ "".
Proof.
  unfold if_truthy, truthy. destruct v as [s'|]; [|discriminate].
  destruct (bool_decide_reflect (s' = "")); simpl; [discriminate|].
  intros [= ->]. done.
Qed.

Lemma bind_Ok {A B} (r : result A) (k : A → result B) (b : B) :
  bind r k = Ok b → ∃ a, r = Ok a ∧ k a = Ok b.
Proof. destruct r as [a|e]; [by exists a|discriminate]. Qed.

Lemma loop_body_outcome (rnd : random_rowids) (st : build_state) (feat : feature)
    (st' : build_state) :
  loop_body rnd st feat = Ok st' → outcome rnd st feat st'.
Proof.
  unfold loop_body. rewrite if_truthy_classify_geo.
  destruct (reduce_geometry (feat_geometry feat)) as [[[lon lat]|e]|] eqn:Hgeom;
    simpl; [| discriminate | intros [= <-]; constructor].
  destruct (classify_geo (props_of feat)) as [kind|] eqn:Hgeo.
  { intros (db & Hdb & [= <-])%bind_Ok. by eapply GeoInserted. }
  destruct (if_truthy (derived_name (props_of feat))) as [name|] eqn:Hname;
    [| intros [= <-]; constructor].
  apply if_truthy_Some in Hname as [Hname Hne].
  destruct (classify (props_of feat)) as [[poi_type subtype]|] eqn:Hclass;
    [| intros [= <-]; constructor].
  intros (db & Hdb & [= <-])%bind_Ok. by eapply PoiInserted.
Qed.

Lemma for_features_invariant (rnd : random_rowids) (I : build_state → Prop) :
  (∀ st feat st', I st → loop_body rnd st feat = Ok st' → I st') →
  ∀ features st st', I st → for_features rnd features st = Ok st' → I st'.
Proof.
  intros Hstep features.
  induction features as [|feat rest IH]; intros st st' Hst; simpl.
  - by intros [= <-].
  - destruct (loop_body rnd st feat) as [st1|e] eqn:Hbody; simpl; [|discriminate].
    apply IH. by eapply Hstep.
Qed.

(** ** Insertion *)

Lemma next_rowid_above (keys : list Z) (k : Z) :
  k ∈ keys → k < next_rowid keys.
Proof.
  destruct keys as [|k0 rest]; [by intros ?%elem_of_nil|].
  simpl. intros Hk.
  assert (k ≤ foldr Z.max k0 rest); [|lia].
  apply elem_of_cons in Hk as [->|Hk].
  - clear. induction rest as [|x rest IH]; simpl; lia.
  - induction rest as [|x rest IH]; [by apply elem_of_nil in Hk|].
    simpl. apply elem_of_cons in Hk as [->|Hk]; [lia|].
    specialize (IH Hk). lia.
Qed.

Lemma next_rowid_fresh (keys : list Z) : next_rowid keys ∉ keys.
Proof. intros H%next_rowid_above. lia. Qed.

Lemma next_rowid_below (keys : list Z) (bound : Z) :
  1 ≤ bound → Forall (λ k, k < bound) keys → next_rowid keys < bound + 1.
Proof.
  intros Hbound Hkeys. destruct keys as [|k0 rest]; simpl; [lia|].
  assert (foldr Z.max k0 rest < bound); [|lia].
  apply Forall_cons in Hkeys as [Hk0 Hrest].
  induction Hrest as [|x rest Hx _ IH]; simpl; lia.
Qed.

Lemma new_rowid_room (rnd : random_rowids) (t : table) (keys : list Z) :
  Forall (λ k, k < max_rowid) keys → new_rowid rnd t keys = Ok (next_rowid keys).
Proof. intros Hroom. unfold new_rowid. by rewrite bool_decide_eq_true_2. Qed.

Lemma new_rowid_fresh (rnd : random_rowids) (t : table) (keys : list Z) (k : Z) :
  new_rowid rnd t keys = Ok k → k ∉ keys.
Proof.
  unfold new_rowid. case_bool_decide as Hroom.
  - intros [= <-]. apply next_rowid_fresh.
  - destruct (rnd t keys) as [r|]; [|discriminate].
    case_bool_decide as Hr; [|discriminate]. intros [= <-]. by destruct Hr.
Qed.

(** The only two things an insert that returns can have done. *)
Lemma insert_or_ignore_cases {R} (rnd : random_rowids) (t : table) (key : R → Z)
    (rows : list R) (id : option Z) (row : Z → R) (rows' : list R) :
  insert_or_ignore rnd t key rows id row = Ok rows' →
  (∃ i, id = Some i ∧ i ∈ (key <$> rows) ∧ rows' = rows)
  ∨ (∃ k, (k ∉ (key <$> rows))
          ∧ (id = Some k ∨ id = None ∧ new_rowid rnd t (key <$> rows) = Ok k)
          ∧ rows' = rows ++ [row k]).
Proof.
  unfold insert_or_ignore. destruct id as [i|].
  - case_bool_decide as Hrange; [|discriminate]. intros [= <-].
    destruct (bool_decide_reflect (i ∈ (key <$> rows))) as [Hin|Hout].
    + left. by exists i.
    + right. exists i. auto.
  - intros (k & Hk & [= <-])%bind_Ok. right. exists k.
    split; [by eapply new_rowid_fresh|]. auto.
Qed.

Lemma insert_or_ignore_Forall_keyed {R} (P : R → Prop) (rnd : random_rowids)
    (t : table) (key : R → Z) (rows : list R) (id : option Z) (row : Z → R)
    (rows' : list R) :
  Forall P rows →
  (∀ k, (∀ i, id = Some i → k = i) → P (row k)) →
  insert_or_ignore rnd t key rows id row = Ok rows' →
  Forall P rows'.
Proof.
  intros Hrows Hrow
    [(i & _ & _ & ->)|(k & _ & Hk & ->)]%insert_or_ignore_cases; [done|].
  apply Forall_app. split; [done|]. constructor; [|constructor].
  apply Hrow. intros i Hi. destruct Hk as [Hk|[Hk _]]; congruence.
Qed.

Lemma insert_or_ignore_Forall {R} (P : R → Prop) (rnd : random_rowids)
    (t : table) (key : R → Z) (rows : list R) (id : option Z) (row : Z → R)
    (rows' : list R) :
  Forall P rows → (∀ k, P (row k)) →
  insert_or_ignore rnd t key rows id row = Ok rows' →
  Forall P rows'.
Proof. intros Hrows Hrow. apply insert_or_ignore_Forall_keyed; auto. Qed.

(** Two tables with the same keys take an insert together, as long as the
    key, when the store chooses it, is not drawn at random. *)
Lemma insert_or_ignore_paired {R1 R2} (rnd : random_rowids) (t1 t2 : table)
    (key1 : R1 → Z) (key2 : R2 → Z) (rows1 : list R1) (rows2 : list R2)
    (id : option Z) (row1 : Z → R1) (row2 : Z → R2)
    (rows1' : list R1) (rows2' : list R2) :
  key1 <$> rows1 = key2 <$> rows2 →
  (id = None → Forall (λ k, k < max_rowid) (key1 <$> rows1)) →
  insert_or_ignore rnd t1 key1 rows1 id row1 = Ok rows1' →
  insert_or_ignore rnd t2 key2 rows2 id row2 = Ok rows2' →
  (∃ i, id = Some i ∧ i ∈ (key1 <$> rows1) ∧ rows1' = rows1 ∧ rows2' = rows2)
  ∨ (∃ k, (k ∉ (key1 <$> rows1))
          ∧ (id = Some k ∨ id = None ∧ k = next_rowid (key1 <$> rows1))
          ∧ rows1' = rows1 ++ [row1 k] ∧ rows2' = rows2 ++ [row2 k]).
Proof.
  intros Hkeys Hroom. unfold insert_or_ignore. rewrite <- Hkeys.
  destruct id as [i|].
  - case_bool_decide as Hrange; [|discriminate]. intros [= <-] [= <-].
    destruct (bool_decide_reflect (i ∈ (key1 <$> rows1))) as [Hin|Hout].
    + left. by exists i.
    + right. exists i. auto.
  - rewrite !new_rowid_room by auto. simpl. intros [= <-] [= <-].
    right. exists (next_rowid (key1 <$> rows1)).
    split; [apply next_rowid_fresh|]. auto.
Qed.

Lemma poi_indexed_keys (rows : list poi_row) (index : list index_row) :
  Forall2 poi_indexed rows index → poi_id <$> rows = idx_id <$> index.
Proof.
  induction 1 as [|p x rows index (Hid & _) _ IH]; [done|].
  csimpl. by rewrite Hid, IH.
Qed.

Lemma geo_indexed_keys (rows : list geo_row) (index : list index_row) :
  Forall2 geo_indexed rows index → geo_id <$> rows = idx_id <$> index.
Proof.
  induction 1 as [|g x rows index (Hid & _) _ IH]; [done|].
  csimpl. by rewrite Hid, IH.
Qed.

Lemma insert_poi_step (rnd : random_rowids) (db : store) (osm_id : option Z)
    (lat lon : float) (poi_type : Z) (name subtype : string) (props : properties)
    (db' : store) :
  Forall2 poi_indexed (pois db) (poi_index db) →
  (osm_id = None → Forall (λ k, k < max_rowid) (poi_id <$> pois db)) →
  insert_poi rnd db osm_id lat lon poi_type name subtype props = Ok db' →
  geo_features db' = geo_features db ∧ geo_index db' = geo_index db
  ∧ pair_step poi_indexed poi_id (pois db) (pois db') (poi_index db) (poi_index db')
  ∧ (∀ i, osm_id = Some i → i ∈ (poi_id <$> pois db) → db' = db)
  ∧ (∀ k, k ∈ (poi_id <$> pois db') →
          k ∈ (poi_id <$> pois db)
          ∨ osm_id = Some k
          ∨ osm_id = None ∧ k = next_rowid (poi_id <$> pois db)).
Proof.
  intros Hpairs Hroom. unfold insert_poi.
  intros (rows & Hrows & (index & Hindex & [= <-])%bind_Ok)%bind_Ok. simpl.
  split; [done|]. split; [done|].
  apply poi_indexed_keys in Hpairs as Hkeys.
  destruct (insert_or_ignore_paired _ _ _ _ _ _ _ _ _ _ _ _ Hkeys Hroom Hrows Hindex)
    as [(i & Hid & Hin & -> & ->)|(k & Hout & Hid & -> & ->)].
  - split; [by left|]. split; [intros _ _ _; by destruct db|]. auto.
  - split; [|split].
    + right. eexists _, _. repeat split; done.
    + intros i Hi Hin. destruct Hid as [->|[-> _]]; [|discriminate Hi].
      by inversion Hi; subst.
    + intros k'. rewrite fmap_app. intros [Hk'|Hk']%elem_of_app; [by left|].
      apply list_elem_of_singleton in Hk'. simpl in Hk'. subst k'.
      right. destruct Hid as [->|[-> ->]]; auto.
Qed.

Lemma insert_geo_step (rnd : random_rowids) (db : store) (osm_id : option Z)
    (lat lon : float) (geo_kind : string) (props : properties) (db' : store) :
  Forall2 geo_indexed (geo_features db) (geo_index db) →
  (osm_id = None → Forall (λ k, k < max_rowid) (geo_id <$> geo_features db)) →
  insert_geo rnd db osm_id lat lon geo_kind props = Ok db' →
  pois db' = pois db ∧ poi_index db' = poi_index db
  ∧ pair_step geo_indexed geo_id (geo_features db) (geo_features db')
      (geo_index db) (geo_index db')
  ∧ (∀ i, osm_id = Some i → i ∈ (geo_id <$> geo_features db) → db' = db)
  ∧ (∀ k, k ∈ (geo_id <$> geo_features db') →
          k ∈ (geo_id <$> geo_features db)
          ∨ osm_id = Some k
          ∨ osm_id = None ∧ k = next_rowid (geo_id <$> geo_features db)).
Proof.
  intros Hpairs Hroom. unfold insert_geo.
  intros (rows & Hrows & (index & Hindex & [= <-])%bind_Ok)%bind_Ok. simpl.
  split; [done|]. split; [done|].
  apply geo_indexed_keys in Hpairs as Hkeys.
  destruct (insert_or_ignore_paired _ _ _ _ _ _ _ _ _ _ _ _ Hkeys Hroom Hrows Hindex)
    as [(i & Hid & Hin & -> & ->)|(k & Hout & Hid & -> & ->)].
  - split; [by left|]. split; [intros _ _ _; by destruct db|]. auto.
  - split; [|split].
    + right. eexists _, _. repeat split; done.
    + intros i Hi Hin. destruct Hid as [->|[-> _]]; [|discriminate Hi].
      by inversion Hi; subst.
    + intros k'. rewrite fmap_app. intros [Hk'|Hk']%elem_of_app; [by left|].
      apply list_elem_of_singleton in Hk'. simpl in Hk'. subst k'.
      right. destruct Hid as [->|[-> ->]]; auto.
Qed.

Lemma pair_step_consistent {R} (indexed : R → index_row → Prop) (key : R → Z)
    (rows rows' : list R) (index index' : list index_row) :
  pair_step indexed key rows rows' index index' →
  Forall2 indexed rows index → NoDup (key <$> rows) →
  Forall2 indexed rows' index' ∧ NoDup (key <$> rows').
Proof.
  intros [[-> ->]|(r & x & -> & -> & Hrx & Hfresh)] Hpairs Hnodup; [done|].
  split.
  - apply Forall2_app; [done|]. by constructor.
  - rewrite fmap_app. apply NoDup_app. split; [done|]. split.
    + intros k Hk [->|[]%elem_of_nil]%elem_of_cons. done.
    + apply NoDup_singleton.
Qed.

(** An iteration keeps the pairs together, as long as the key, when the
    store chooses it, is not drawn at random. *)
Lemma loop_body_consistent (rnd : random_rowids) (st : build_state)
    (feat : feature) (st' : build_state) :
  consistent (cur st) →
  (prop_id (props_of feat) = None → below max_rowid (cur st)) →
  loop_body rnd st feat = Ok st' →
  consistent (cur st').
Proof.
  intros (Hpoi & Hgeo & Hpk & Hgk) Hroom Hbody.
  destruct (loop_body_outcome _ _ _ _ Hbody)
    as [|lon lat kind db _ _ Hdb|lon lat name ty subtype db _ _ _ _ _ Hdb];
    cbn [cur].
  - done.
  - destruct (insert_geo_step _ _ _ _ _ _ _ _ Hgeo (λ H, proj2 (Hroom H)) Hdb)
      as (Hp & Hx & Hstep & _).
    destruct (pair_step_consistent _ _ _ _ _ _ Hstep Hgeo Hgk) as [Hgeo' Hgk'].
    unfold consistent. rewrite Hp, Hx. done.
  - destruct (insert_poi_step _ _ _ _ _ _ _ _ _ _ Hpoi (λ H, proj1 (Hroom H)) Hdb)
      as (Hg & Hx & Hstep & _).
    destruct (pair_step_consistent _ _ _ _ _ _ Hstep Hpoi Hpk) as [Hpoi' Hpk'].
    unfold consistent. rewrite Hg, Hx. done.
Qed.

Lemma loop_body_below (rnd : random_rowids) (st : build_state) (feat : feature)
    (st' : build_state) (bound : Z) :
  consistent (cur st) →
  1 ≤ bound → bound ≤ max_rowid →
  below bound (cur st) →
  (∀ i, prop_id (props_of feat) = Some i → i < bound) →
  loop_body rnd st feat = Ok st' →
  below (bound + 1) (cur st').
Proof.
  intros (Hpoi & Hgeo & _ & _) Hb1 Hb2 [Hpk Hgk] Hid Hbody.
  assert (∀ keys, Forall (λ k, k < bound) keys → Forall (λ k, k < bound + 1) keys)
    as Hweak.
  { intros keys Hkeys. eapply Forall_impl; [exact Hkeys|]. simpl. lia. }
  assert (∀ keys, Forall (λ k, k < bound) keys → Forall (λ k, k < max_rowid) keys)
    as Hroom.
  { intros keys Hkeys. eapply Forall_impl; [exact Hkeys|]. simpl. lia. }
  destruct (loop_body_outcome _ _ _ _ Hbody)
    as [|lon lat kind db _ _ Hdb|lon lat name ty subtype db _ _ _ _ _ Hdb];
    cbn [cur].
  - split; auto.
  - destruct (insert_geo_step _ _ _ _ _ _ _ _ Hgeo (λ _, Hroom _ Hgk) Hdb)
      as (Hp & _ & _ & _ & Hnew).
    split; [rewrite Hp; auto|].
    apply Forall_forall. intros k [Hk|[Hk|[_ ->]]]%Hnew.
    + rewrite Forall_forall in Hgk. apply Hgk in Hk. lia.
    + apply Hid in Hk. lia.
    + by apply next_rowid_below.
  - destruct (insert_poi_step _ _ _ _ _ _ _ _ _ _ Hpoi (λ _, Hroom _ Hpk) Hdb)
      as (Hg & _ & _ & _ & Hnew).
    split; [|rewrite Hg; auto].
    apply Forall_forall. intros k [Hk|[Hk|[_ ->]]]%Hnew.
    + rewrite Forall_forall in Hpk. apply Hpk in Hk. lia.
    + apply Hid in Hk. lia.
    + by apply next_rowid_below.
Qed.

Lemma empty_store_consistent : consistent empty_store.
Proof. repeat split; constructor. Qed.

Lemma for_features_consistent (rnd : random_rowids) (features : list feature) :
  ∀ (st st' : build_state) (bound : Z),
    consistent (cur st) →
    below bound (cur st) →
    ids_clear bound features →
    for_features rnd features st = Ok st' →
    consistent (cur st')
    ∧ below (bound + Z.of_nat (length features)) (cur st').
Proof.
  induction features as [|feat rest IH];
    intros st st' bound Hst Hbelow (Hb1 & Hb2 & Hids); simpl.
  - intros [= <-]. by rewrite Z.add_0_r.
  - intros (st1 & Hbody & Hrest)%bind_Ok.
    apply Forall_cons in Hids as [Hid Hids]. simpl length in Hb2.
    assert (consistent (cur st1)) as Hst1.
    { eapply loop_body_consistent; [exact Hst| |exact Hbody].
      intros _. destruct Hbelow as [Hp Hg].
      split; (eapply Forall_impl; [eassumption|]); simpl; lia. }
    assert (below (bound + 1) (cur st1)) as Hbelow1.
    { apply (loop_body_below rnd st feat st1 bound); auto. lia. }
    destruct (IH st1 st' (bound + 1) Hst1 Hbelow1) as [Hst' Hbelow']; [|done|].
    + split; [lia|]. split; [lia|].
      eapply Forall_impl; [exact Hids|]. simpl. intros f Hf i Hi.
      specialize (Hf i Hi). lia.
    + split; [done|].
      replace (bound + Z.of_nat (S (length rest)))
        with (bound + 1 + Z.of_nat (length rest)) by lia.
      done.
Qed.

(** An import whose ids leave the largest key alone reaches only stores
    whose pairs are together. *)
Lemma import_features_consistent (rnd : random_rowids) (features : list feature)
    (st : build_state) (bound : Z) :
  ids_clear bound features →
  import_features rnd features = Ok st →
  consistent (cur st) ∧ below max_rowid (cur st).
Proof.
  intros Hclear Hrun.
  assert (below bound (cur initial_state)) as Hempty by (split; constructor).
  destruct (for_features_consistent rnd features initial_state st bound
              empty_store_consistent Hempty Hclear Hrun) as [Hst [Hp Hg]].
  destruct Hclear as (_ & Hb & _).
  split; [done|].
  split; (eapply Forall_impl; [eassumption|]); simpl; lia.
Qed.

Lemma pois_rows_invariant (rnd : random_rowids) (P : poi_row → Prop) :
  (∀ props k lat lon poi_type name subtype,
      classify_geo props = None →
      derived_name props = Some name → name ≠ "" →
      classify props = Some (poi_type, subtype) →
      P {| poi_id := k; poi_lat := lat; poi_lon := lon; poi_type := poi_type;
           poi_name := name; poi_subtype := subtype; poi_tags := props |}) →
  ∀ features st, import_features rnd features = Ok st → Forall P (pois (cur st)).
Proof.
  intros HP features st.
  apply (for_features_invariant rnd (λ st, Forall P (pois (cur st))));
    [|constructor].
  clear features st. intros st feat st' Hst Hbody.
  destruct (loop_body_outcome _ _ _ _ Hbody)
    as [|lon lat kind db _ _ Hdb|lon lat name ty subtype db _ Hgeo Hname Hne Hclass Hdb];
    cbn [cur].
  - done.
  - unfold insert_geo in Hdb.
    apply bind_Ok in Hdb as (rows & _ & (index & _ & [= <-])%bind_Ok). done.
  - unfold insert_poi in Hdb.
    apply bind_Ok in Hdb as (rows & Hrows & (index & _ & [= <-])%bind_Ok). simpl.
    eapply insert_or_ignore_Forall; [exact Hst| |exact Hrows].
    intros k. by eapply HP.
Qed.

Lemma insert_geo_keeps_pois (rnd : random_rowids) (db : store) (osm_id : option Z)
    (lat lon : float) (geo_kind : string) (props : properties) (db' : store) :
  insert_geo rnd db osm_id lat lon geo_kind props = Ok db' →
  pois db' = pois db ∧ poi_index db' = poi_index db.
Proof.
  unfold insert_geo.
  by intros (rows & _ & (index & _ & [= <-])%bind_Ok)%bind_Ok.
Qed.

Lemma insert_poi_keeps_geo (rnd : random_rowids) (db : store) (osm_id : option Z)
    (lat lon : float) (poi_type : Z) (name subtype : string) (props : properties)
    (db' : store) :
  insert_poi rnd db osm_id lat lon poi_type name subtype props = Ok db' →
  geo_features db' = geo_features db ∧ geo_index db' = geo_index db.
Proof.
  unfold insert_poi.
  by intros (rows & _ & (index & _ & [= <-])%bind_Ok)%bind_Ok.
Qed.

(** ** Geo-features and POIs *)

(** C2: a record that [classify_geo] accepts only ever reaches the geo
    inserts: the iteration leaves pois, poi_index and the POI count as they
    were; and no row of pois carries tags that [classify_geo] accepts. *)
Theorem geo_feature_never_poi (rnd : random_rowids) (st : build_state)
    (feat : feature) (kind : string) :
  classify_geo (props_of feat) = Some kind →
  loop_body rnd st feat
  = match reduce_geometry (feat_geometry feat) with
    | None => Ok st
    | Some reduced =>
        lonlat <- reduced ;;
        db <- insert_geo rnd (cur st) (prop_id (props_of feat))
                lonlat.2 lonlat.1 kind (props_of feat) ;;
        Ok {| cur := db; imported := imported st |}
    end
  ∧ (∀ st', loop_body rnd st feat = Ok st' →
        pois (cur st') = pois (cur st)
        ∧ poi_index (cur st') = poi_index (cur st)
        ∧ imported st' = imported st)
  ∧ (∀ rnd' features final, import_features rnd' features = Ok final →
        Forall (λ row, classify_geo (poi_tags row) = None) (pois (cur final))).
Proof.
  intros Hgeo.
  assert (loop_body rnd st feat
          = match reduce_geometry (feat_geometry feat) with
            | None => Ok st
            | Some reduced =>
                lonlat <- reduced ;;
                db <- insert_geo rnd (cur st) (prop_id (props_of feat))
                        lonlat.2 lonlat.1 kind (props_of feat) ;;
                Ok {| cur := db; imported := imported st |}
            end) as Heq.
  { unfold loop_body. rewrite if_truthy_classify_geo, Hgeo. reflexivity. }
  split; [exact Heq|]. split.
  - intros st'. rewrite Heq.
    destruct (reduce_geometry (feat_geometry feat)) as [[lonlat|e]|]; simpl;
      [|discriminate|by intros [= <-]].
    intros (db & [Hp Hx]%insert_geo_keeps_pois & [= <-])%bind_Ok. done.
  - intros rnd'. apply pois_rows_invariant. by intros.
Qed.

Lemma geo_feature_never_poi_witness :
  classify (props_of snowdon) = Some (50, "peak")
  ∧ loop_body no_rowids (state_after no_rowids [cardiff]) snowdon
    = Ok (state_after no_rowids [cardiff; snowdon])
  ∧ pois (cur (state_after no_rowids [cardiff; snowdon]))
    = pois (cur (state_after no_rowids [cardiff]))
  ∧ poi_index (cur (state_after no_rowids [cardiff; snowdon]))
    = poi_index (cur (state_after no_rowids [cardiff]))
  ∧ imported (state_after no_rowids [cardiff; snowdon])
    = imported (state_after no_rowids [cardiff]).
Proof.
  assert (classify_geo (props_of snowdon) = Some "peak") as Hgeo by reflexivity.
  destruct (geo_feature_never_poi no_rowids (state_after no_rowids [cardiff])
              snowdon "peak" Hgeo)
    as (Hbody & Hsame & _).
  assert (loop_body no_rowids (state_after no_rowids [cardiff]) snowdon
          = Ok (state_after no_rowids [cardiff; snowdon])) as Hrun
    by (rewrite Hbody; vm_compute; reflexivity).
  split; [reflexivity|]. split; [exact Hrun|]. exact (Hsame _ Hrun).
Defined.

(** ** Names *)

Lemma derived_name_synthesized (props : properties) (h : string) :
  get props "name" = None →
  get props "historic" = Some h →
  h ∈ ["standing_stone"; "megalith"; "stone"] →
  derived_name props = Some (title (replace "_" " " h)).
Proof.
  intros Hname Hhist Hin. unfold derived_name, get_default.
  rewrite Hname, Hhist.
  assert (in_strs (Some h) ["standing_stone"; "megalith"; "stone"] = true) as ->;
    [|reflexivity].
  repeat (apply elem_of_cons in Hin as [->|Hin]; [reflexivity|]).
  by apply elem_of_nil in Hin.
Qed.

(** C5: for a record that is not a geo-feature, an absent name with historic
    one of standing_stone, megalith, stone is replaced by the historic value
    with underscores turned into spaces and title-cased (standing_stone gives
    "Standing Stone"); a record that then has no name is dropped whatever
    [classify] would say; and no row of pois has an empty name. *)
Theorem unnamed_record_dropped (rnd : random_rowids) (st : build_state)
    (feat : feature) :
  classify_geo (props_of feat) = None →
  (∀ h, get (props_of feat) "name" = None →
        get (props_of feat) "historic" = Some h →
        h ∈ ["standing_stone"; "megalith"; "stone"] →
        derived_name (props_of feat) = Some (title (replace "_" " " h)))
  ∧ title (replace "_" " " "standing_stone") = "Standing Stone"
  ∧ (if_truthy (derived_name (props_of feat)) = None →
       loop_body rnd st feat
       = match reduce_geometry (feat_geometry feat) with
         | Some (Raise e) => Raise e
         | _ => Ok st
         end)
  ∧ (∀ rnd' features final, import_features rnd' features = Ok final →
        Forall (λ row, poi_name row ≠ "") (pois (cur final))).
Proof.
  intros Hgeo. split; [|split; [reflexivity|split]].
  - intros h. apply derived_name_synthesized.
  - intros Hname. unfold loop_body.
    rewrite if_truthy_classify_geo, Hgeo, Hname.
    by destruct (reduce_geometry (feat_geometry feat)) as [[lonlat|e]|].
  - intros rnd'. apply pois_rows_invariant. by intros.
Qed.

Lemma unnamed_record_dropped_witness :
  derived_name (props_of standing_stone) = Some "Standing Stone"
  ∧ loop_body no_rowids initial_state unnamed_cafe = Ok initial_state.
Proof.
  split.
  - assert (classify_geo (props_of standing_stone) = None) as Hgeo by reflexivity.
    destruct (unnamed_record_dropped no_rowids initial_state standing_stone Hgeo)
      as (Hname & Htitle & _).
    rewrite <- Htitle. apply Hname; [reflexivity|reflexivity|].
    apply elem_of_cons. by left.
  - assert (classify_geo (props_of unnamed_cafe) = None) as Hgeo by reflexivity.
    destruct (unnamed_record_dropped no_rowids initial_state unnamed_cafe Hgeo)
      as (_ & _ & Hdrop & _).
    rewrite Hdrop; reflexivity.
Defined.

(** ** Keys *)

Lemma insert_or_ignore_room {R} (rnd : random_rowids) (t : table) (key : R → Z)
    (rows : list R) (row : Z → R) :
  Forall (λ k, k < max_rowid) (key <$> rows) →
  insert_or_ignore rnd t key rows None row
  = Ok (rows ++ [row (next_rowid (key <$> rows))]).
Proof. intros Hroom. unfold insert_or_ignore. by rewrite new_rowid_room. Qed.








(** ** Index rows *)











(** ** The reported count *)

(** C8: on the synthetic extract (three POIs, one peak, one cafe without a
    name, and a second record with the id of a POI) the store holds the three
    POI rows and the peak with their index rows, and the count that is
    reported is 4: the ignored duplicate is counted. *)
Theorem synthetic_extract_reports_four (rnd : random_rowids) :
  ∃ st, import_features rnd synthetic_extract = Ok st
    ∧ poi_id <$> pois (cur st) = [1; 2; 3]
    ∧ idx_id <$> poi_index (cur st) = [1; 2; 3]
    ∧ geo_id <$> geo_features (cur st) = [4]
    ∧ idx_id <$> geo_index (cur st) = [4]
    ∧ imported st = 4
    ∧ main one_region ["wales-latest.osm.pbf"]
      = (0, {| executed := [TagsFilter "wales-latest.osm.pbf" (load_tags one_region);
                            Export "wales-latest.osm.pbf"];
               databases := [("wales-latest.osm.pbf", cur st)];
               reported := [("wales-latest.osm.pbf", 4)] |}).
Proof.
  exists (state_after no_rowids synthetic_extract).
  repeat split; vm_compute; reflexivity.
Qed.

(** ** Failure of the extraction engine *)

Lemma for_regions_cons (env : environment) (pbf : string) (rest : list string)
    (w : world) :
  for_regions env (pbf :: rest) w
  = match build_region env pbf w with
    | (Ok _, w') => for_regions env rest w'
    | (Raise e, w') => (Raise e, w')
    end.
Proof. reflexivity. Qed.

Lemma for_regions_app (env : environment) (before after : list string) (w : world) :
  for_regions env (before ++ after) w
  = match for_regions env before w with
    | (Ok _, w') => for_regions env after w'
    | (Raise e, w') => (Raise e, w')
    end.
Proof.
  revert w. induction before as [|pbf before IH]; intros w; [reflexivity|].
  rewrite <- app_comm_cons, !for_regions_cons.
  destruct (build_region env pbf w) as [[[]|e] w']; [apply IH|reflexivity].
Qed.

Lemma extends_refl (names : list string) (w : world) : extends names w w.
Proof. exists [], []. by rewrite !app_nil_r. Qed.

Lemma extends_mono (names names' : list string) (w w' : world) :
  (∀ n, n ∈ names → n ∈ names') → extends names w w' → extends names' w w'.
Proof.
  intros Hsub (log & dbs & He & Hd & Hl & Hb). exists log, dbs.
  repeat split; try done; (eapply Forall_impl; [eassumption|]); naive_solver.
Qed.

Lemma extends_trans (names : list string) (w1 w2 w3 : world) :
  extends names w1 w2 → extends names w2 w3 → extends names w1 w3.
Proof.
  intros (log1 & dbs1 & He1 & Hd1 & Hl1 & Hb1) (log2 & dbs2 & He2 & Hd2 & Hl2 & Hb2).
  exists (log1 ++ log2), (dbs1 ++ dbs2).
  rewrite He2, Hd2, He1, Hd1, <- !app_assoc.
  repeat split; by apply Forall_app.
Qed.

Lemma run_extends (env : environment) (cmd : command) (w : world) :
  extends [extract_of cmd] w (run env cmd w).2.
Proof.
  exists [cmd], []. unfold run. destruct (bool_decide _); simpl;
    rewrite app_nil_r; repeat split; repeat constructor.
Qed.

Lemma load_and_commit_extends (env : environment) (pbf : string) (w : world) :
  extends [pbf] w (load_and_commit env pbf w).2.
Proof.
  unfold load_and_commit.
  destruct (import_features (random_rowid env pbf) (geojson env pbf)) as [st|e]; simpl;
    [|apply extends_refl].
  exists [], [(pbf, cur st)]. simpl. rewrite app_nil_r.
  repeat split; repeat constructor.
Qed.

Lemma and_then_extends {A B} (names : list string) (m : action A) (k : A → action B)
    (w : world) :
  extends names w (m w).2 →
  (∀ a w', extends names w' (k a w').2) →
  extends names w (and_then m k w).2.
Proof.
  intros Hm Hk. unfold and_then. destruct (m w) as [[a|e] w']; simpl in *; [|done].
  eapply extends_trans; [exact Hm|apply Hk].
Qed.

Lemma build_region_extends (env : environment) (pbf : string) (w : world) :
  extends [pbf] w (build_region env pbf w).2.
Proof.
  unfold build_region.
  apply and_then_extends; [apply (run_extends env (TagsFilter pbf _))|].
  intros _ w1.
  apply and_then_extends; [apply (run_extends env (Export pbf))|].
  intros _ w2. apply load_and_commit_extends.
Qed.

Lemma for_regions_extends (env : environment) (pbf_files : list string) (w : world) :
  extends pbf_files w (for_regions env pbf_files w).2.
Proof.
  revert w. induction pbf_files as [|pbf rest IH]; intros w.
  - apply extends_refl.
  - simpl. apply and_then_extends.
    + eapply extends_mono; [|apply build_region_extends].
      intros n ->%list_elem_of_singleton. apply elem_of_cons. by left.
    + intros _ w'. eapply extends_mono; [|apply IH].
      intros n Hn. apply elem_of_cons. by right.
Qed.

(** A build whose filter or export step fails raises after that step. *)
Lemma build_region_fails (env : environment) (pbf : string) (w : world) :
  osmium env (TagsFilter pbf (load_tags env)) ≠ 0 ∨ osmium env (Export pbf) ≠ 0 →
  ∃ status attempt,
    build_region env pbf w
    = (Raise (CalledProcessError status),
       {| executed := executed w ++ attempt; databases := databases w;
          reported := reported w |})
    ∧ status ≠ 0
    ∧ (attempt = [TagsFilter pbf (load_tags env)]
       ∨ attempt = [TagsFilter pbf (load_tags env); Export pbf]).
Proof.
  intros Hfail. unfold build_region, and_then, run.
  destruct (bool_decide_reflect (osmium env (TagsFilter pbf (load_tags env)) = 0))
    as [Hfilter|Hfilter].
  - destruct Hfail as [Hfail|Hfail]; [done|]. simpl.
    destruct (bool_decide_reflect (osmium env (Export pbf) = 0)) as [|_]; [done|].
    simpl. eexists _, _. split; [|split; [exact Hfail|by right]].
    by rewrite <- app_assoc.
  - eexists _, _. split; [reflexivity|]. split; [done|by left].
Qed.

Lemma main_nonempty (env : environment) (pbf_files : list string) :
  pbf_files ≠ [] →
  main env pbf_files
  = match for_regions env pbf_files initial_world with
    | (Ok _, w) => (0, w)
    | (Raise _, w) => (1, w)
    end.
Proof. by destruct pbf_files. Qed.

(** C9: when the filter step or the export step of the engine exits nonzero
    for an extract, the run ends with exit status 1; the commands that were
    executed are those of the extracts before it followed by the failing
    build's own, the failing command last and once; nothing is executed for
    the extracts after it, and no database is committed for it or for them. *)
Theorem engine_failure_is_fatal
    (env : environment) (before : list string) (pbf : string) (after : list string) :
  NoDup (before ++ pbf :: after) →
  osmium env (TagsFilter pbf (load_tags env)) ≠ 0 ∨ osmium env (Export pbf) ≠ 0 →
  (main env (before ++ pbf :: after)).1 = 1
  ∧ (∃ log attempt,
        executed (main env (before ++ pbf :: after)).2 = log ++ attempt
        ∧ Forall (λ cmd, extract_of cmd ∈ before) log
        ∧ (attempt = []
           ∨ attempt = [TagsFilter pbf (load_tags env)]
           ∨ attempt = [TagsFilter pbf (load_tags env); Export pbf]))
  ∧ Forall (λ cmd, extract_of cmd ∉ after) (executed (main env (before ++ pbf :: after)).2)
  ∧ Forall (λ d : string * store, d.1 ∈ before)
      (databases (main env (before ++ pbf :: after)).2).
Proof.
  intros Hnodup Hfail.
  apply NoDup_app in Hnodup as (_ & Hdisj & [Hpbf _]%NoDup_cons).
  assert (∀ n, n ∈ before → n ∉ after) as Hbefore.
  { intros n Hn Hafter. apply (Hdisj n Hn). apply elem_of_cons. by right. }
  rewrite main_nonempty by (by destruct before).
  rewrite for_regions_app.
  destruct (for_regions_extends env before initial_world)
    as (log & dbs & He & Hd & Hl & Hb).
  destruct (for_regions env before initial_world) as [[[]|e] w1]; simpl in He, Hd.
  - rewrite for_regions_cons.
    destruct (build_region_fails env pbf w1 Hfail) as (status & attempt & -> & _ & Hatt).
    simpl. rewrite He, Hd. repeat split.
    + exists log, attempt. auto.
    + apply Forall_app. split.
      * eapply Forall_impl; [exact Hl|]. intros cmd Hcmd. by apply Hbefore.
      * destruct Hatt as [->| ->]; repeat constructor; done.
    + done.
  - simpl. rewrite He, Hd. repeat split.
    + exists log, []. rewrite app_nil_r. auto.
    + eapply Forall_impl; [exact Hl|]. intros cmd Hcmd. by apply Hbefore.
    + done.
Qed.

Lemma engine_failure_is_fatal_witness :
  main failing_export ["a.osm.pbf"; "b.osm.pbf"; "c.osm.pbf"]
  = (1, {| executed := [TagsFilter "a.osm.pbf" ["n/amenity"]; Export "a.osm.pbf";
                        TagsFilter "b.osm.pbf" ["n/amenity"]; Export "b.osm.pbf"];
           databases := [("a.osm.pbf", cur (state_after no_rowids synthetic_extract))];
           reported := [("a.osm.pbf", 4)] |})
  ∧ (main failing_export (["a.osm.pbf"] ++ "b.osm.pbf" :: ["c.osm.pbf"])).1 = 1.
Proof.
  split; [vm_compute; reflexivity|].
  apply (engine_failure_is_fatal failing_export ["a.osm.pbf"] "b.osm.pbf" ["c.osm.pbf"]).
  - apply (bool_decide_unpack _). vm_compute. exact I.
  - right. vm_compute. discriminate.
Defined.

(** ** The tag file *)

Lemma rstrip_first (c : ascii) (s : string) :
  TagFile.is_space c = false →
  TagFile.first_char (TagFile.rstrip (String c s)) = Some c.
Proof. intros Hc. simpl. rewrite Hc. by destruct (TagFile.rstrip s). Qed.

Lemma rstrip_last (s : string) :
  TagFile.rstrip s = EmptyString
  ∨ ∃ d, TagFile.last_char (TagFile.rstrip s) = Some d ∧ TagFile.is_space d = false.
Proof.
  induction s as [|c s IH]; [by left|]. simpl.
  destruct (TagFile.rstrip s) as [|c' kept] eqn:Hkept.
  - destruct (TagFile.is_space c) eqn:Hc; [by left|]. right. by exists c.
  - right. destruct IH as [|(d & Hd & Hspace)]; [done|]. exists d. split; [|done].
    exact Hd.
Qed.

Lemma lstrip_first (s : string) :
  TagFile.lstrip s = EmptyString
  ∨ ∃ c rest, TagFile.lstrip s = String c rest ∧ TagFile.is_space c = false.
Proof.
  induction s as [|c s IH]; [by left|]. simpl.
  destruct (TagFile.is_space c) eqn:Hc; [exact IH|]. right. by exists c, s.
Qed.

Lemma lstrip_stripped (c : ascii) (s : string) :
  TagFile.is_space c = false → TagFile.lstrip (String c s) = String c s.
Proof. intros Hc. simpl. by rewrite Hc. Qed.

Lemma rstrip_idempotent (s : string) :
  TagFile.rstrip (TagFile.rstrip s) = TagFile.rstrip s.
Proof.
  induction s as [|c s IH]; [done|]. simpl.
  destruct (TagFile.rstrip s) as [|c' kept] eqn:Hkept.
  - destruct (TagFile.is_space c) eqn:Hc; [done|]. simpl. by rewrite Hc.
  - change (TagFile.rstrip (String c (String c' kept))
            = String c (String c' kept)).
    change (TagFile.rstrip (String c (String c' kept)))
      with (match TagFile.rstrip (String c' kept) with
            | EmptyString =>
                if TagFile.is_space c then EmptyString else String c EmptyString
            | kept' => String c kept'
            end).
    by rewrite IH.
Qed.

Lemma strip_shape (s : string) :
  TagFile.strip s = EmptyString
  ∨ ∃ c d, TagFile.first_char (TagFile.strip s) = Some c
           ∧ TagFile.last_char (TagFile.strip s) = Some d
           ∧ TagFile.is_space c = false ∧ TagFile.is_space d = false.
Proof.
  unfold TagFile.strip.
  destruct (lstrip_first s) as [->|(c & rest & -> & Hc)]; [by left|].
  right. destruct (rstrip_last (String c rest)) as [Hnil|(d & Hd & Hspace)].
  - pose proof (rstrip_first c rest Hc) as Hfirst. by rewrite Hnil in Hfirst.
  - exists c, d. by rewrite rstrip_first.
Qed.

Lemma strip_idempotent (s : string) :
  TagFile.strip (TagFile.strip s) = TagFile.strip s.
Proof.
  unfold TagFile.strip.
  destruct (lstrip_first s) as [->|(c & rest & -> & Hc)]; [done|].
  pose proof (rstrip_first c rest Hc) as Hfirst.
  destruct (TagFile.rstrip (String c rest)) as [|c' kept] eqn:Hkept; [done|].
  simpl in Hfirst. inversion Hfirst; subst c'.
  rewrite (lstrip_stripped c kept Hc), <- Hkept. apply rstrip_idempotent.
Qed.

(** X1: every tag that [load_tags] returns is the stripped form of a line of
    the file that does not start with [#]; it is not empty, it starts and ends
    with a character that is not white space, and stripping it again changes
    nothing. *)
Theorem load_tags_stripped (lines : list string) (tag : string) :
  tag ∈ TagFile.load_tags lines →
  (∃ line, line ∈ lines ∧ tag = TagFile.strip line
           ∧ TagFile.is_comment line = false)
  ∧ tag ≠ EmptyString
  ∧ TagFile.strip tag = tag
  ∧ ∃ c d, TagFile.first_char tag = Some c ∧ TagFile.last_char tag = Some d
           ∧ TagFile.is_space c = false ∧ TagFile.is_space d = false.
Proof.
  intros Hin.
  assert (∃ line, line ∈ lines ∧ tag = TagFile.strip line
                  ∧ TagFile.keeps line = true) as (line & Hline & -> & Hkeeps).
  { induction lines as [|l lines IH]; [by apply elem_of_nil in Hin|].
    simpl in Hin. destruct (TagFile.keeps l) eqn:Hl.
    - apply elem_of_cons in Hin as [->|Hin].
      + exists l. split; [apply elem_of_cons; by left|done].
      + destruct (IH Hin) as (line & ? & ? & ?). exists line.
        split; [apply elem_of_cons; by right|done].
    - destruct (IH Hin) as (line & ? & ? & ?). exists line.
      split; [apply elem_of_cons; by right|done]. }
  unfold TagFile.keeps in Hkeeps. apply andb_true_iff in Hkeeps as [Hne Hcomment].
  apply negb_true_iff in Hcomment.
  assert (TagFile.strip line ≠ EmptyString) as Hne'.
  { intros E. by rewrite E in Hne. }
  split; [by exists line|]. split; [done|]. split; [apply strip_idempotent|].
  by destruct (strip_shape line).
Qed.

Lemma load_tags_stripped_witness :
  TagFile.strip "nwr/amenity=cafe " = "nwr/amenity=cafe"
  ∧ TagFile.strip "nwr/amenity=cafe" = "nwr/amenity=cafe".
Proof.
  assert ("nwr/amenity=cafe"
          ∈ TagFile.load_tags ["# amenities"; "  nwr/amenity=cafe "; ""]) as Hin.
  { apply elem_of_cons. by left. }
  destruct (load_tags_stripped _ _ Hin) as (_ & _ & Hstrip & _).
  split; [reflexivity|exact Hstrip].
Defined.

Lemma load_tags_app (before after : list string) :
  TagFile.load_tags (before ++ after)
  = TagFile.load_tags before ++ TagFile.load_tags after.
Proof.
  induction before as [|l before IH]; [done|]. simpl.
  destruct (TagFile.keeps l); by rewrite IH.
Qed.

(** X2: a line that starts with [#] and a line of white space only add
    nothing to the tags, wherever they stand in the file. *)
Theorem load_tags_skips_comments_and_blanks
    (before after : list string) (line : string) :
  TagFile.is_comment line = true ∨ TagFile.strip line = EmptyString →
  TagFile.load_tags (before ++ line :: after) = TagFile.load_tags (before ++ after).
Proof.
  intros Hskip. rewrite !load_tags_app. f_equal. simpl.
  assert (TagFile.keeps line = false) as ->; [|done].
  unfold TagFile.keeps. destruct Hskip as [-> | ->]; [apply andb_false_r|done].
Qed.

Lemma load_tags_skips_comments_and_blanks_witness :
  TagFile.load_tags (["n/shop"] ++ "# food" :: ["n/amenity=pub"])
  = TagFile.load_tags (["n/shop"] ++ ["n/amenity=pub"]).
Proof.
  apply load_tags_skips_comments_and_blanks. by left.
Defined.

(** X3: the comment test looks at the first character of the raw line: a
    comment that is indented is not recognised, and its stripped text is
    returned as a tag. *)
Theorem indented_comment_is_a_tag (before after : list string) (line : string) :
  TagFile.is_comment line = false →
  TagFile.is_comment (TagFile.strip line) = true →
  TagFile.load_tags (before ++ line :: after)
  = TagFile.load_tags before ++ TagFile.strip line :: TagFile.load_tags after.
Proof.
  intros Hraw Hstripped. rewrite load_tags_app. f_equal. simpl.
  assert (TagFile.keeps line = true) as ->; [|done].
  unfold TagFile.keeps. rewrite Hraw.
  by destruct (TagFile.strip line).
Qed.

Lemma indented_comment_is_a_tag_witness :
  TagFile.load_tags (["n/shop"] ++ "  # food" :: ["n/amenity=pub"])
  = TagFile.load_tags ["n/shop"] ++ "# food" :: TagFile.load_tags ["n/amenity=pub"].
Proof.
  apply (indented_comment_is_a_tag ["n/shop"] ["n/amenity=pub"] "  # food");
    reflexivity.
Defined.

(** ** More on the classifier *)

(** X4: [classify] reads nine tag keys and nothing else: two tag mappings
    that agree on them are classified alike. *)
Theorem classify_reads_nine_keys (props props' : properties) :
  (∀ key, key ∈ classifying_keys → get props key = get props' key) →
  classify props = classify props'.
Proof.
  intros Hkeys. unfold classify, get_default.
  assert (∀ key, bool_decide (key ∈ classifying_keys) = true →
                 get props key = get props' key) as H.
  { intros key Hkey. apply Hkeys. by apply bool_decide_eq_true in Hkey. }
  rewrite (H "place"), (H "historic"), (H "amenity"), (H "religion"), (H "shop"),
    (H "tourism"), (H "leisure"), (H "natural"), (H "man_made");
    reflexivity.
Qed.

Lemma classify_reads_nine_keys_witness :
  classify (with_id 2 [("name", "The Crown"); ("amenity", "pub")])
  = classify (tags_of [("amenity", "pub"); ("opening_hours", "24/7")]).
Proof.
  apply classify_reads_nine_keys. intros key Hkey.
  repeat (apply elem_of_cons in Hkey as [->|Hkey]; [reflexivity|]).
  by apply elem_of_nil in Hkey.
Defined.

Lemma truthy_get_default (props : properties) (key : string) :
  truthy (get props key) = true → get_default props key "" ≠ "".
Proof.
  unfold truthy, get_default. destruct (get props key) as [v|]; [|done]. simpl.
  by destruct (bool_decide_reflect (v = "")).
Qed.

Lemma in_strs_get_default (props : properties) (key : string) (lits : list string) :
  in_strs (get props key) lits = true → get_default props key "" ∈ lits.
Proof.
  unfold in_strs, get_default, eq_str.
  induction lits as [|lit lits IH]; [done|]. simpl.
  intros [Hhere|Hthere]%orb_true_iff; apply elem_of_cons.
  - left. apply bool_decide_eq_true in Hhere. by rewrite Hhere.
  - right. by apply IH.
Qed.

(** One rule of the chain: the case where it fires is left to the caller. *)
Ltac next_rule H :=
  match type of H with
  | (if ?b then _ else _) = _ =>
      let Hb := fresh "Hrule" in destruct b eqn:Hb
  end.

(** The subtype a rule returns is not empty. *)
Ltac subtype_not_empty :=
  first
    [ done
    | congruence
    | match goal with
      | Hrule : truthy _ = true |- _ => by apply truthy_get_default
      end
    | match goal with
      | Hrule : in_strs _ _ = true |- _ =>
          let E := fresh "E" in
          apply in_strs_get_default in Hrule; intros E; rewrite E in Hrule;
          repeat (apply elem_of_cons in Hrule as [?|Hrule]; [discriminate|]);
          by apply elem_of_nil in Hrule
      end ].

(** X5: the type code [classify] returns is one of the nineteen codes of the
    rules, and the subtype is not empty unless the rule is the religion rule
    (code 3), whose subtype is the religion tag as it is, empty included. *)
Theorem classify_codes (props : properties) (code : Z) (subtype : string) :
  classify props = Some (code, subtype) →
  code ∈ type_codes ∧ (code ≠ 3 → subtype ≠ "").
Proof.
  unfold classify. intros H.
  repeat (next_rule H;
          [ injection H as <- <-;
            split; [by apply (bool_decide_unpack _)|intros Hcode; subtype_not_empty]
          | ]).
  discriminate H.
Qed.

Lemma classify_codes_witness :
  (11 : Z) ∈ type_codes ∧ ((11 : Z) ≠ 3 → "pub" ≠ "").
Proof.
  apply (classify_codes (props_of the_crown)). reflexivity.
Defined.

(** X6: a place value among city, town, village, hamlet, suburb decides the
    classification whatever the other tags are: the code is in 100..104 and
    the subtype is the place value. *)
Theorem place_value_wins (props : properties) (v : string) :
  get props "place" = Some v →
  v ∈ place_values →
  ∃ code, classify props = Some (code, v) ∧ 100 ≤ code ≤ 104.
Proof.
  intros Hplace Hv. unfold classify. rewrite Hplace.
  repeat (apply elem_of_cons in Hv as [->|Hv];
          [eexists; split; [reflexivity|lia]|]).
  by apply elem_of_nil in Hv.
Qed.

Lemma place_value_wins_witness :
  ∃ code,
    classify (tags_of [("place", "hamlet"); ("historic", "castle"); ("shop", "farm")])
    = Some (code, "hamlet") ∧ 100 ≤ code ≤ 104.
Proof.
  apply place_value_wins; [reflexivity|].
  apply (bool_decide_unpack _). reflexivity.
Defined.

Lemma eq_str_false (v : string) (lit : string) :
  v ≠ lit → eq_str (Some v) lit = false.
Proof. intros Hne. apply bool_decide_eq_false. congruence. Qed.

(** X7: without one of the five place values, a historic value that is not
    empty and is none of castle, abbey, monastery is classified (7, value)
    whatever the amenity, shop, tourism, leisure and nature tags are: the
    historic rules come before the religion rule and all the later ones. *)
Theorem historic_before_later_rules (props : properties) (h : string) :
  in_strs (get props "place") place_values = false →
  get props "historic" = Some h →
  h ≠ "" →
  h ∉ ["castle"; "abbey"; "monastery"] →
  classify props = Some (7, h).
Proof.
  intros Hplace Hhist Hne Hother. unfold classify, get_default.
  unfold in_strs, place_values in Hplace. simpl in Hplace.
  repeat (apply orb_false_iff in Hplace as [? Hplace]).
  repeat match goal with
         | H : eq_str (get props "place") _ = false |- _ => rewrite H; clear H
         end.
  rewrite Hhist. unfold in_strs. simpl.
  rewrite !eq_str_false; simpl.
  - by destruct (bool_decide_reflect (h = "")).
  - intros ->. apply Hother. apply (bool_decide_unpack _). reflexivity.
  - intros ->. apply Hother. apply (bool_decide_unpack _). reflexivity.
  - intros ->. apply Hother. apply (bool_decide_unpack _). reflexivity.
Qed.

Lemma historic_before_later_rules_witness :
  classify old_chapel = Some (7, "church").
Proof.
  apply historic_before_later_rules; [reflexivity|reflexivity|discriminate|].
  apply (bool_decide_unpack _). reflexivity.
Defined.

(** ** Rows and their tags *)

Lemma classify_50_is_peak (props : properties) (subtype : string) :
  classify props = Some (50, subtype) → eq_str (get props "natural") "peak" = true.
Proof.
  unfold classify. intros H.
  repeat (next_rule H; [first [discriminate H | reflexivity]|]).
  discriminate H.
Qed.

Lemma classify_geo_peak (props : properties) :
  eq_str (get props "natural") "peak" = true → classify_geo props ≠ None.
Proof.
  intros Hpeak. unfold classify_geo. rewrite Hpeak.
  by destruct (eq_str (get props "place") "island").
Qed.

(** X8: every row of pois agrees with the tags stored in it: its type and
    subtype are what [classify] returns on them, its name is the derived
    name, and its key is the id of the record when the record has one. *)
Theorem pois_rows_follow_tags (rnd : random_rowids) (features : list feature)
    (st : build_state) :
  import_features rnd features = Ok st →
  Forall (λ row,
            classify (poi_tags row) = Some (poi_type row, poi_subtype row)
            ∧ derived_name (poi_tags row) = Some (poi_name row)
            ∧ (∀ i, prop_id (poi_tags row) = Some i → poi_id row = i))
    (pois (cur st)).
Proof.
  apply (for_features_invariant rnd
           (λ st, Forall (λ row,
              classify (poi_tags row) = Some (poi_type row, poi_subtype row)
              ∧ derived_name (poi_tags row) = Some (poi_name row)
              ∧ (∀ i, prop_id (poi_tags row) = Some i → poi_id row = i))
              (pois (cur st)))); [|constructor].
  clear. intros st feat st' Hst Hbody.
  destruct (loop_body_outcome _ _ _ _ Hbody)
    as [|lon lat kind db _ _ Hdb|lon lat name ty subtype db _ _ Hname _ Hclass Hdb];
    cbn [cur]; [done| |].
  - apply insert_geo_keeps_pois in Hdb as [-> _]. done.
  - unfold insert_poi in Hdb.
    apply bind_Ok in Hdb as (rows & Hrows & (index & _ & [= <-])%bind_Ok). simpl.
    eapply insert_or_ignore_Forall_keyed; [exact Hst| |exact Hrows].
    intros k Hk. simpl. auto.
Qed.

Lemma pois_rows_follow_tags_witness :
  Forall (λ row,
            classify (poi_tags row) = Some (poi_type row, poi_subtype row)
            ∧ derived_name (poi_tags row) = Some (poi_name row)
            ∧ (∀ i, prop_id (poi_tags row) = Some i → poi_id row = i))
    (pois (cur (state_after no_rowids synthetic_extract))).
Proof.
  apply (pois_rows_follow_tags no_rowids synthetic_extract). reflexivity.
Defined.

(** X9: no row of pois has type 50.  The rule natural=peak of [classify] is
    never the one that stores a row, since every record with natural=peak is
    taken by [classify_geo] first. *)
Theorem peak_rule_never_stored (rnd : random_rowids) (features : list feature)
    (st : build_state) :
  import_features rnd features = Ok st →
  Forall (λ row, poi_type row ≠ 50) (pois (cur st)).
Proof.
  apply pois_rows_invariant.
  intros props k lat lon ty name subtype Hgeo _ _ Hclass. simpl. intros ->.
  by apply classify_50_is_peak, classify_geo_peak in Hclass.
Qed.

Lemma peak_rule_never_stored_witness :
  Forall (λ row, poi_type row ≠ 50)
    (pois (cur (state_after no_rowids [cardiff; snowdon]))).
Proof.
  apply (peak_rule_never_stored no_rowids [cardiff; snowdon]). reflexivity.
Defined.

Lemma classify_geo_kinds (props : properties) (kind : string) :
  classify_geo props = Some kind → kind = "island" ∨ kind = "peak".
Proof.
  unfold classify_geo.
  repeat match goal with |- context [if ?b then _ else _] => destruct b end;
    intros [= <-]; auto.
Qed.

(** X10: every row of geo_features agrees with the tags stored in it: its
    kind is what [classify_geo] returns on them, island or peak; its name is
    the name tag, absent when the record has none; its key is the id of the
    record when the record has one. *)
Theorem geo_rows_follow_tags (rnd : random_rowids) (features : list feature)
    (st : build_state) :
  import_features rnd features = Ok st →
  Forall (λ row,
            classify_geo (geo_tags row) = Some (geo_kind row)
            ∧ (geo_kind row = "island" ∨ geo_kind row = "peak")
            ∧ geo_name row = get (geo_tags row) "name"
            ∧ (∀ i, prop_id (geo_tags row) = Some i → geo_id row = i))
    (geo_features (cur st)).
Proof.
  apply (for_features_invariant rnd
           (λ st, Forall (λ row,
              classify_geo (geo_tags row) = Some (geo_kind row)
              ∧ (geo_kind row = "island" ∨ geo_kind row = "peak")
              ∧ geo_name row = get (geo_tags row) "name"
              ∧ (∀ i, prop_id (geo_tags row) = Some i → geo_id row = i))
              (geo_features (cur st)))); [|constructor].
  clear. intros st feat st' Hst Hbody.
  destruct (loop_body_outcome _ _ _ _ Hbody)
    as [|lon lat kind db _ Hkind Hdb|lon lat name ty subtype db _ _ _ _ _ Hdb];
    cbn [cur]; [done| |].
  - unfold insert_geo in Hdb.
    apply bind_Ok in Hdb as (rows & Hrows & (index & _ & [= <-])%bind_Ok). simpl.
    eapply insert_or_ignore_Forall_keyed; [exact Hst| |exact Hrows].
    intros k Hk. simpl. split; [done|].
    split; [by eapply classify_geo_kinds|auto].
  - apply insert_poi_keeps_geo in Hdb as [-> _]. done.
Qed.

Lemma geo_rows_follow_tags_witness :
  Forall (λ row,
            classify_geo (geo_tags row) = Some (geo_kind row)
            ∧ (geo_kind row = "island" ∨ geo_kind row = "peak")
            ∧ geo_name row = get (geo_tags row) "name"
            ∧ (∀ i, prop_id (geo_tags row) = Some i → geo_id row = i))
    (geo_features (cur (state_after no_rowids synthetic_extract))).
Proof.
  apply (geo_rows_follow_tags no_rowids synthetic_extract). reflexivity.
Defined.

(** ** More on the geometry reduction *)

Lemma outer_rings_without_holes (coordinates : list (list ring)) :
  outer_rings (take 1 <$> coordinates) = outer_rings coordinates.
Proof.
  induction coordinates as [|poly rest IH]; [done|].
  csimpl. rewrite IH. by destruct poly.
Qed.

(** X11: inner rings are never read: dropping the holes of a Polygon, or of
    every polygon of a MultiPolygon, leaves the result, a point or an
    exception, as it was. *)
Theorem holes_are_ignored (geom : geometry) :
  centroid_from_geom (without_holes geom) = centroid_from_geom geom.
Proof.
  destruct geom as [|coordinates|coordinates|]; try reflexivity.
  - by destruct coordinates.
  - unfold centroid_from_geom, without_holes.
    by rewrite outer_rings_without_holes.
Qed.

Lemma outer_rings_missing (before after : list (list ring)) :
  outer_rings (before ++ [] :: after) = Raise IndexError.
Proof.
  induction before as [|poly before IH]; [done|].
  simpl. destruct poly as [|r holes]; [done|]. simpl. by rewrite IH.
Qed.

(** X12: a Polygon with no ring at all, and a MultiPolygon one of whose
    polygons has no ring, raise IndexError, whatever the other polygons hold;
    the loop over the features stops at such a record. *)
Theorem missing_ring_raises_index_error
    (rnd : random_rowids) (geom : geometry) (props : option properties)
    (st : build_state) (rest : list feature) :
  geom = Polygon [] ∨ (∃ before after, geom = MultiPolygon (before ++ [] :: after)) →
  centroid_from_geom geom = Raise IndexError
  ∧ for_features rnd
      ({| feat_geometry := geom; feat_properties := props |} :: rest) st
    = Raise IndexError.
Proof.
  intros Hgeom.
  assert (centroid_from_geom geom = Raise IndexError) as Hraise.
  { destruct Hgeom as [->|(before & after & ->)]; [done|].
    unfold centroid_from_geom. by rewrite outer_rings_missing. }
  split; [exact Hraise|].
  cbn [for_features]. unfold loop_body. cbn [feat_geometry].
  assert (reduce_geometry geom = Some (centroid_from_geom geom)) as ->
    by (destruct Hgeom as [->|(before & after & ->)]; reflexivity).
  by rewrite Hraise.
Qed.

Lemma missing_ring_raises_index_error_witness :
  centroid_from_geom (MultiPolygon ([[square_ring]] ++ [] :: [[[]]]))
  = Raise IndexError
  ∧ for_features no_rowids
      [{| feat_geometry := MultiPolygon ([[square_ring]] ++ [] :: [[[]]]);
          feat_properties := None |}; the_crown] initial_state
    = Raise IndexError.
Proof.
  apply missing_ring_raises_index_error. right. by eexists _, _.
Defined.

(** ** The loop as decisions and inserts *)

Lemma loop_body_perform (rnd : random_rowids) (st : build_state) (feat : feature) :
  loop_body rnd st feat = perform rnd st feat (effect_of feat).
Proof.
  unfold loop_body, effect_of.
  destruct (reduce_geometry (feat_geometry feat)) as [[lonlat|e]|]; simpl;
    [|done|done].
  destruct (if_truthy (classify_geo (props_of feat))); [done|].
  destruct (if_truthy (derived_name (props_of feat))); [|done].
  by destruct (classify (props_of feat)) as [[poi_type subtype]|].
Qed.

Lemma insert_or_ignore_keeps {R} (rnd : random_rowids) (t : table) (key : R → Z)
    (rows : list R) (id : option Z) (row : Z → R) (rows' : list R) :
  insert_or_ignore rnd t key rows id row = Ok rows' →
  ∀ r, r ∈ rows → r ∈ rows'.
Proof.
  intros [(i & _ & _ & ->)|(k & _ & _ & ->)]%insert_or_ignore_cases r Hr; [done|].
  apply elem_of_app. by left.
Qed.

Lemma insert_or_ignore_length {R} (rnd : random_rowids) (t : table) (key : R → Z)
    (rows : list R) (id : option Z) (row : Z → R) (rows' : list R) :
  insert_or_ignore rnd t key rows id row = Ok rows' →
  (length rows' ≤ S (length rows))%nat.
Proof.
  intros [(i & _ & _ & ->)|(k & _ & _ & ->)]%insert_or_ignore_cases; [lia|].
  rewrite length_app. simpl. lia.
Qed.

Lemma loop_body_keeps (rnd : random_rowids) (st : build_state) (feat : feature)
    (st' : build_state) :
  loop_body rnd st feat = Ok st' →
  (∀ row, row ∈ pois (cur st) → row ∈ pois (cur st'))
  ∧ (∀ row, row ∈ poi_index (cur st) → row ∈ poi_index (cur st'))
  ∧ (∀ row, row ∈ geo_features (cur st) → row ∈ geo_features (cur st'))
  ∧ (∀ row, row ∈ geo_index (cur st) → row ∈ geo_index (cur st'))
  ∧ imported st ≤ imported st'.
Proof.
  intros Hbody.
  destruct (loop_body_outcome _ _ _ _ Hbody)
    as [|lon lat kind db _ _ Hdb|lon lat name ty subtype db _ _ _ _ _ Hdb];
    cbn [cur imported].
  - repeat split; auto. lia.
  - unfold insert_geo in Hdb.
    apply bind_Ok in Hdb as (rows & Hrows & (index & Hindex & [= <-])%bind_Ok).
    simpl. repeat split; auto; try lia.
    + by eapply insert_or_ignore_keeps.
    + by eapply insert_or_ignore_keeps.
  - unfold insert_poi in Hdb.
    apply bind_Ok in Hdb as (rows & Hrows & (index & Hindex & [= <-])%bind_Ok).
    simpl. repeat split; auto; try lia.
    + by eapply insert_or_ignore_keeps.
    + by eapply insert_or_ignore_keeps.
Qed.

Lemma for_features_keeps (rnd : random_rowids) (features : list feature)
    (st st' : build_state) :
  for_features rnd features st = Ok st' →
  (∀ row, row ∈ pois (cur st) → row ∈ pois (cur st'))
  ∧ (∀ row, row ∈ poi_index (cur st) → row ∈ poi_index (cur st'))
  ∧ (∀ row, row ∈ geo_features (cur st) → row ∈ geo_features (cur st'))
  ∧ (∀ row, row ∈ geo_index (cur st) → row ∈ geo_index (cur st'))
  ∧ imported st ≤ imported st'.
Proof.
  apply (for_features_invariant rnd
           (λ st', (∀ row, row ∈ pois (cur st) → row ∈ pois (cur st'))
                   ∧ (∀ row, row ∈ poi_index (cur st) → row ∈ poi_index (cur st'))
                   ∧ (∀ row, row ∈ geo_features (cur st)
                             → row ∈ geo_features (cur st'))
                   ∧ (∀ row, row ∈ geo_index (cur st) → row ∈ geo_index (cur st'))
                   ∧ imported st ≤ imported st')); [|by repeat split].
  clear. intros st1 feat st2 (Hp & Hx & Hg & Hy & Hn) Hbody.
  destruct (loop_body_keeps _ _ _ _ Hbody) as (Hp' & Hx' & Hg' & Hy' & Hn').
  repeat split; auto. lia.
Qed.

(** X13: the loop changes and removes no row: after any number of
    iterations every row that was in one of the four tables is still in it,
    with the same values in every column, and the count has not gone
    down. *)
Theorem tables_only_grow (rnd : random_rowids) (features : list feature)
    (st st' : build_state) :
  for_features rnd features st = Ok st' →
  (∀ row, row ∈ pois (cur st) → row ∈ pois (cur st'))
  ∧ (∀ row, row ∈ poi_index (cur st) → row ∈ poi_index (cur st'))
  ∧ (∀ row, row ∈ geo_features (cur st) → row ∈ geo_features (cur st'))
  ∧ (∀ row, row ∈ geo_index (cur st) → row ∈ geo_index (cur st'))
  ∧ imported st ≤ imported st'.
Proof. apply for_features_keeps. Qed.

Lemma tables_only_grow_witness :
  Forall (λ row, row ∈ pois (cur (state_after no_rowids synthetic_extract)))
    (pois (cur (state_after no_rowids [cardiff]))).
Proof.
  apply Forall_forall.
  assert (for_features no_rowids
            [the_crown; castell; snowdon; unnamed_cafe; crown_again]
            (state_after no_rowids [cardiff])
          = Ok (state_after no_rowids synthetic_extract)) as Hrun
    by reflexivity.
  exact (proj1 (tables_only_grow _ _ _ _ Hrun)).
Defined.

(** ** The count *)

Lemma insert_poi_length (rnd : random_rowids) (db : store) (osm_id : option Z)
    (lat lon : float) (poi_type : Z) (name subtype : string) (props : properties)
    (db' : store) :
  insert_poi rnd db osm_id lat lon poi_type name subtype props = Ok db' →
  (length (pois db') ≤ S (length (pois db)))%nat.
Proof.
  unfold insert_poi.
  intros (rows & Hrows & (index & _ & [= <-])%bind_Ok)%bind_Ok. simpl.
  by eapply insert_or_ignore_length.
Qed.

Lemma for_features_count (rnd : random_rowids) (features : list feature)
    (st st' : build_state) :
  for_features rnd features st = Ok st' →
  imported st' = imported st + Z.of_nat (length (List.filter counted features))
  ∧ (length (pois (cur st'))
     ≤ length (pois (cur st)) + length (List.filter counted features))%nat.
Proof.
  revert st. induction features as [|feat rest IH]; intros st; simpl.
  - intros [= <-]. split; lia.
  - intros (st1 & Hbody & [Hn Hrows]%IH)%bind_Ok.
    rewrite loop_body_perform in Hbody.
    assert (counted feat = match effect_of feat with
                           | PoiInsert _ _ _ _ _ => true
                           | _ => false
                           end) as -> by reflexivity.
    destruct (effect_of feat) as [|e|lat lon kind|lat lon ty name subtype];
      simpl in Hbody; try discriminate Hbody.
    + by injection Hbody as <-.
    + apply bind_Ok in Hbody as (db & [Hp _]%insert_geo_keeps_pois & [= <-]).
      simpl in *. by rewrite <- Hp.
    + apply bind_Ok in Hbody as (db & Hlen%insert_poi_length & [= <-]).
      simpl in *. split; lia.
Qed.

(** X14: the count that is reported is the number of records that reach the
    POI insert (supported geometry, not a geo-feature, a name, a
    classification), stored or ignored alike; it is never smaller than the
    number of rows of pois. *)
Theorem reported_count_is_records_seen (rnd : random_rowids)
    (features : list feature) (st : build_state) :
  import_features rnd features = Ok st →
  imported st = Z.of_nat (length (List.filter counted features))
  ∧ Z.of_nat (length (pois (cur st))) ≤ imported st.
Proof.
  intros [Hn Hrows]%for_features_count. simpl in *. split; lia.
Qed.

Lemma reported_count_is_records_seen_witness :
  imported (state_after no_rowids synthetic_extract) = 4
  ∧ Z.of_nat (length (pois (cur (state_after no_rowids synthetic_extract)))) ≤ 4.
Proof.
  apply (reported_count_is_records_seen no_rowids synthetic_extract). reflexivity.
Defined.

Lemma insert_or_ignore_absent {R} (rnd : random_rowids) (t : table) (key : R → Z)
    (rows : list R) (i : Z) (row : Z → R) (rows' : list R) :
  i ∉ (key <$> rows) →
  insert_or_ignore rnd t key rows (Some i) row = Ok rows' →
  rows' = rows ++ [row i].
Proof.
  intros Hnew
    [(j & [= <-] & Hin & _)|(k & _ & [[= <-]|[[=] _]] & ->)]%insert_or_ignore_cases;
    done.
Qed.

Lemma for_features_distinct_ids (rnd : random_rowids) (features : list feature) :
  ∀ (st st' : build_state) (ids : list Z),
    for_features rnd features st = Ok st' →
    (λ feat, prop_id (props_of feat)) <$> features = Some <$> ids →
    NoDup ids →
    (∀ k, k ∈ (poi_id <$> pois (cur st)) → k ∉ ids) →
    imported st' - Z.of_nat (length (pois (cur st')))
    = imported st - Z.of_nat (length (pois (cur st))).
Proof.
  induction features as [|feat rest IH]; intros st st' ids; simpl.
  - by intros [= <-].
  - destruct ids as [|i ids]; [discriminate|]. csimpl.
    intros (st1 & Hbody & Hrun)%bind_Ok [= Hid Hids] [Hi Hnodup]%NoDup_cons Hfresh.
    rewrite loop_body_perform in Hbody.
    destruct (effect_of feat) as [|e|lat lon kind|lat lon ty name subtype];
      simpl in Hbody; try discriminate Hbody.
    + injection Hbody as <-.
      apply (IH _ _ ids Hrun Hids Hnodup).
      intros k Hk Hin. apply (Hfresh k Hk), elem_of_cons. by right.
    + apply bind_Ok in Hbody as (db & [Hp _]%insert_geo_keeps_pois & [= <-]).
      rewrite (IH _ _ ids Hrun Hids Hnodup); simpl; [by rewrite Hp|].
      rewrite Hp. intros k Hk Hin. apply (Hfresh k Hk), elem_of_cons. by right.
    + rewrite Hid in Hbody.
      assert (i ∉ (poi_id <$> pois (cur st))) as Hnew.
      { intros Hk. apply (Hfresh i Hk), elem_of_cons. by left. }
      apply bind_Ok in Hbody as (db & Hdb & [= <-]).
      unfold insert_poi in Hdb.
      apply bind_Ok in Hdb
        as (rows & Hrows%insert_or_ignore_absent & (index & _ & [= <-])%bind_Ok);
        [|exact Hnew].
      subst rows.
      rewrite (IH _ _ ids Hrun Hids Hnodup); simpl.
      * rewrite length_app. simpl. lia.
      * intros k. rewrite fmap_app. intros [Hk|Hk]%elem_of_app Hin.
        -- apply (Hfresh k Hk), elem_of_cons. by right.
        -- apply list_elem_of_singleton in Hk. simpl in Hk. by subst k.
Qed.

(** X15: when every record of the extract has an id and no id occurs twice,
    the count that is reported is the number of rows of pois. *)
Theorem count_is_rows_when_ids_distinct
    (rnd : random_rowids) (features : list feature) (st : build_state)
    (ids : list Z) :
  import_features rnd features = Ok st →
  (λ feat, prop_id (props_of feat)) <$> features = Some <$> ids →
  NoDup ids →
  imported st = Z.of_nat (length (pois (cur st))).
Proof.
  intros Hrun Hids Hnodup.
  pose proof (for_features_distinct_ids rnd features _ _ ids Hrun Hids Hnodup) as H.
  simpl in H. rewrite <- (Z.sub_0_r (imported st)).
  assert (imported st - Z.of_nat (length (pois (cur st))) = 0) as E; [|lia].
  apply H. by intros k ?%elem_of_nil.
Qed.

Lemma count_is_rows_when_ids_distinct_witness :
  imported (state_after no_rowids
              [cardiff; the_crown; castell; snowdon; unnamed_cafe]) = 3.
Proof.
  rewrite (count_is_rows_when_ids_distinct no_rowids
             [cardiff; the_crown; castell; snowdon; unnamed_cafe]
             (state_after no_rowids
                [cardiff; the_crown; castell; snowdon; unnamed_cafe])
             [1; 2; 3; 4; 5]); [reflexivity|reflexivity|reflexivity|].
  apply (bool_decide_unpack _). reflexivity.
Defined.

(** ** Keys, once more *)

Lemma insert_or_ignore_present {R} (rnd : random_rowids) (t : table) (key : R → Z)
    (rows : list R) (i : Z) (row : Z → R) (rows' : list R) :
  i ∈ (key <$> rows) →
  insert_or_ignore rnd t key rows (Some i) row = Ok rows' →
  rows' = rows.
Proof.
  intros Hin
    [(j & _ & _ & ->)|(k & Hk & [[= <-]|[[=] _]] & _)]%insert_or_ignore_cases;
    done.
Qed.

Lemma insert_or_ignore_has_key {R} (rnd : random_rowids) (t : table) (key : R → Z)
    (rows : list R) (i : Z) (row : Z → R) (rows' : list R) :
  key (row i) = i →
  insert_or_ignore rnd t key rows (Some i) row = Ok rows' →
  i ∈ (key <$> rows').
Proof.
  intros Hkey
    [(j & [= <-] & Hin & ->)|(k & _ & [[= <-]|[[=] _]] & ->)]%insert_or_ignore_cases;
    [done|].
  rewrite fmap_app. apply elem_of_app. right. csimpl. rewrite Hkey.
  by apply list_elem_of_singleton.
Qed.

Lemma kept_keys {R} (key : R → Z) (rows rows' : list R) (i : Z) :
  (∀ r, r ∈ rows → r ∈ rows') → i ∈ (key <$> rows) → i ∈ (key <$> rows').
Proof.
  intros Hkeeps (r & -> & Hr)%list_elem_of_fmap.
  apply list_elem_of_fmap. exists r. auto.
Qed.

(** X16: first occurrence wins, along the list.  Of two records with the same
    id that are bound for the same pair of tables, the later one changes
    nothing in the store, whatever records come between them. *)
Theorem first_occurrence_wins
    (rnd : random_rowids) (st st1 st2 st3 : build_state) (first second : feature)
    (between : list feature) (i : Z) :
  prop_id (props_of first) = Some i →
  prop_id (props_of second) = Some i →
  same_tables first second →
  loop_body rnd st first = Ok st1 →
  for_features rnd between st1 = Ok st2 →
  loop_body rnd st2 second = Ok st3 →
  cur st3 = cur st2.
Proof.
  intros Hid1 Hid2 Hsame Hfirst Hbetween Hsecond.
  apply for_features_keeps in Hbetween as (Hp & Hx & Hg & Hy & _).
  rewrite loop_body_perform in Hfirst, Hsecond. unfold same_tables in Hsame.
  destruct (effect_of first) as [| |lat lon kind|lat lon ty name subtype];
    destruct (effect_of second) as [| |lat' lon' kind'|lat' lon' ty' name' subtype'];
    try done; simpl in Hfirst, Hsecond;
    rewrite Hid1 in Hfirst; rewrite Hid2 in Hsecond;
    apply bind_Ok in Hfirst as (db1 & Hdb1 & [= <-]);
    apply bind_Ok in Hsecond as (db3 & Hdb3 & [= <-]); cbn [cur] in *.
  - unfold insert_geo in Hdb1, Hdb3.
    apply bind_Ok in Hdb1
      as (rows1 & Hrows1 & (index1 & Hindex1 & [= <-])%bind_Ok).
    apply bind_Ok in Hdb3
      as (rows3 & Hrows3 & (index3 & Hindex3 & [= <-])%bind_Ok).
    apply insert_or_ignore_has_key in Hrows1; [|done].
    apply insert_or_ignore_has_key in Hindex1; [|done].
    apply insert_or_ignore_present in Hrows3; [|by eapply kept_keys].
    apply insert_or_ignore_present in Hindex3; [|by eapply kept_keys].
    subst. cbn [cur]. by destruct (cur st2).
  - unfold insert_poi in Hdb1, Hdb3.
    apply bind_Ok in Hdb1
      as (rows1 & Hrows1 & (index1 & Hindex1 & [= <-])%bind_Ok).
    apply bind_Ok in Hdb3
      as (rows3 & Hrows3 & (index3 & Hindex3 & [= <-])%bind_Ok).
    apply insert_or_ignore_has_key in Hrows1; [|done].
    apply insert_or_ignore_has_key in Hindex1; [|done].
    apply insert_or_ignore_present in Hrows3; [|by eapply kept_keys].
    apply insert_or_ignore_present in Hindex3; [|by eapply kept_keys].
    subst. cbn [cur]. by destruct (cur st2).
Qed.

Lemma first_occurrence_wins_witness :
  cur (state_after no_rowids [the_crown; snowdon; crown_hill; bakery_with_id_2])
  = cur (state_after no_rowids [the_crown; snowdon; crown_hill]).
Proof.
  apply (first_occurrence_wins no_rowids initial_state
           (state_after no_rowids [the_crown])
           (state_after no_rowids [the_crown; snowdon; crown_hill])
           (state_after no_rowids
              [the_crown; snowdon; crown_hill; bakery_with_id_2])
           the_crown bakery_with_id_2 [snowdon; crown_hill] 2);
    first [reflexivity | exact I].
Defined.

(** X17: a key the store chose can shadow an id.  In a build whose ids leave
    the largest key, 2^63-1, alone, a POI without an id is stored under one
    more than the largest key of pois, and a later POI whose id is that
    number is ignored: nothing of it reaches the store. *)
Theorem store_chosen_key_shadows_id
    (rnd : random_rowids) (bound : Z) (features : list feature)
    (st st1 st2 : build_state) (first second : feature) :
  ids_clear bound features →
  import_features rnd features = Ok st →
  prop_id (props_of first) = None →
  counted first = true →
  loop_body rnd st first = Ok st1 →
  prop_id (props_of second) = Some (next_rowid (poi_id <$> pois (cur st))) →
  counted second = true →
  loop_body rnd st1 second = Ok st2 →
  next_rowid (poi_id <$> pois (cur st)) ∈ (poi_id <$> pois (cur st1))
  ∧ length (pois (cur st1)) = S (length (pois (cur st)))
  ∧ cur st2 = cur st1.
Proof.
  intros Hclear Himport Hid1 Hc1 Hfirst Hid2 Hc2 Hsecond.
  destruct (import_features_consistent _ _ _ _ Hclear Himport) as [Hst Hbelow].
  pose proof (loop_body_consistent _ _ _ _ Hst (λ _, Hbelow) Hfirst)
    as (Hpairs1 & _).
  destruct Hst as (Hpairs & _). destruct Hbelow as [Hroom _].
  rewrite loop_body_perform in Hfirst, Hsecond. unfold counted in Hc1, Hc2.
  destruct (effect_of first) as [| | |lat lon ty name subtype]; try discriminate Hc1.
  destruct (effect_of second) as [| | |lat' lon' ty' name' subtype'];
    try discriminate Hc2.
  simpl in Hfirst, Hsecond. rewrite Hid1 in Hfirst. rewrite Hid2 in Hsecond.
  apply bind_Ok in Hfirst as (db1 & Hdb1 & [= <-]).
  apply bind_Ok in Hsecond as (db2 & Hdb2 & [= <-]). cbn [cur] in *.
  assert (pois db1
          = pois (cur st)
            ++ [{| poi_id := next_rowid (poi_id <$> pois (cur st));
                   poi_lat := lat; poi_lon := lon; poi_type := ty;
                   poi_name := name; poi_subtype := subtype;
                   poi_tags := props_of first |}]) as Hrows.
  { unfold insert_poi in Hdb1. rewrite insert_or_ignore_room in Hdb1 by done.
    simpl in Hdb1.
    by apply bind_Ok in Hdb1 as (index & _ & [= <-]). }
  assert (next_rowid (poi_id <$> pois (cur st)) ∈ (poi_id <$> pois db1)) as Hin.
  { rewrite Hrows, fmap_app. apply elem_of_app. right.
    by apply list_elem_of_singleton. }
  split; [exact Hin|]. split.
  - rewrite Hrows, length_app. simpl. lia.
  - assert (Some (next_rowid (poi_id <$> pois (cur st))) = None →
            Forall (λ k, k < max_rowid) (poi_id <$> pois db1)) as Hnone
      by discriminate.
    destruct (insert_poi_step _ _ _ _ _ _ _ _ _ _ Hpairs1 Hnone Hdb2)
      as (_ & _ & _ & Hdup & _).
    by apply (Hdup _ eq_refl).
Qed.

Lemma store_chosen_key_shadows_id_witness :
  cur (state_after no_rowids [cardiff; cafe_without_id; bakery_with_id_2])
  = cur (state_after no_rowids [cardiff; cafe_without_id]).
Proof.
  assert (ids_clear 2 [cardiff]) as Hclear.
  { split; [lia|]. split; [vm_compute; discriminate|].
    repeat constructor; intros i [= <-]; lia. }
  apply (store_chosen_key_shadows_id no_rowids 2 [cardiff]
           (state_after no_rowids [cardiff])
           (state_after no_rowids [cardiff; cafe_without_id])
           (state_after no_rowids [cardiff; cafe_without_id; bakery_with_id_2])
           cafe_without_id bakery_with_id_2 Hclear); reflexivity.
Defined.

(** X25: once 2^63-1 is a key, the attribute table and its index can part.
    After a pub stored under 2^63-1, a cafe without an id gets the key 5 in
    pois and the key 6 in poi_index when the draws of SQLite end so, and a
    bakery with the id 5 is then ignored in pois and stored in poi_index. *)
Theorem random_keys_can_part_a_pair :
  ∃ st, import_features five_and_six [last_pub; cafe_without_id; bakery_with_id_5]
        = Ok st
    ∧ poi_id <$> pois (cur st) = [max_rowid; 5]
    ∧ poi_name <$> pois (cur st) = ["Y Olaf"; "Caffi"]
    ∧ idx_id <$> poi_index (cur st) = [max_rowid; 6; 5]
    ∧ imported st = 3
    ∧ ¬ consistent (cur st).
Proof.
  eexists. split; [vm_compute; reflexivity|].
  split; [reflexivity|]. split; [reflexivity|]. split; [reflexivity|].
  split; [reflexivity|].
  intros (Hpairs & _). apply Forall2_length in Hpairs. discriminate Hpairs.
Qed.

(** ** The run as a whole *)

Lemma build_region_ok (env : environment) (pbf : string) (w : world) :
  builds env pbf = true →
  build_region env pbf w
  = (Ok tt,
     {| executed := executed w ++ commands_of env pbf;
        databases :=
          databases w
          ++ [(pbf, cur (state_after (random_rowid env pbf) (geojson env pbf)))];
        reported :=
          reported w
          ++ [(pbf, imported (state_after (random_rowid env pbf)
                               (geojson env pbf)))] |}).
Proof.
  unfold builds. intros [[Hfilter Hexport]%andb_true_iff Himport]%andb_true_iff.
  unfold build_region, and_then, run, load_and_commit, state_after, import_features
    in *.
  rewrite Hfilter. simpl. rewrite Hexport. simpl.
  destruct (for_features (random_rowid env pbf) (geojson env pbf) initial_state) as [st|e];
    [|discriminate Himport].
  by rewrite <- app_assoc.
Qed.

Lemma build_region_not_ok (env : environment) (pbf : string) (w : world) :
  builds env pbf = false → ∃ e w', build_region env pbf w = (Raise e, w').
Proof.
  unfold builds, build_region, and_then, run, load_and_commit. intros Hbuilds.
  destruct (bool_decide (osmium env (TagsFilter pbf (load_tags env)) = 0));
    [|by eexists _, _].
  destruct (bool_decide (osmium env (Export pbf) = 0)); [|by eexists _, _].
  simpl in *.
  destruct (import_features (random_rowid env pbf) (geojson env pbf));
    [done|by eexists _, _].
Qed.

Lemma for_regions_ok (env : environment) (pbf_files : list string) (w : world) :
  forallb (builds env) pbf_files = true →
  for_regions env pbf_files w
  = (Ok tt,
     {| executed := executed w ++ (pbf_files ≫= commands_of env);
        databases :=
          databases w
          ++ ((λ pbf, (pbf, cur (state_after (random_rowid env pbf)
                                   (geojson env pbf))))
                <$> pbf_files);
        reported :=
          reported w
          ++ ((λ pbf, (pbf, imported (state_after (random_rowid env pbf)
                                        (geojson env pbf))))
                <$> pbf_files) |}).
Proof.
  revert w. induction pbf_files as [|pbf rest IH]; intros w.
  - intros _. simpl. rewrite !app_nil_r. by destruct w.
  - intros [Hpbf Hrest]%andb_true_iff.
    rewrite for_regions_cons, (build_region_ok _ _ _ Hpbf), (IH _ Hrest). simpl.
    by rewrite <- !app_assoc.
Qed.

Lemma for_regions_status (env : environment) (pbf_files : list string) (w : world) :
  (for_regions env pbf_files w).1 = Ok tt ↔ forallb (builds env) pbf_files = true.
Proof.
  revert w. induction pbf_files as [|pbf rest IH]; intros w; [done|].
  rewrite for_regions_cons. simpl. destruct (builds env pbf) eqn:Hpbf.
  - rewrite (build_region_ok _ _ _ Hpbf). apply IH.
  - destruct (build_region_not_ok env pbf w Hpbf) as (e & w' & ->). done.
Qed.

(** X18: the exit status is 0 or 1, and it is 0 exactly when there is at
    least one extract and every build reaches its end: both engine steps exit
    0 and the import raises nothing. *)
Theorem main_exit_status (env : environment) (pbf_files : list string) :
  ((main env pbf_files).1 = 0 ∨ (main env pbf_files).1 = 1)
  ∧ ((main env pbf_files).1 = 0
     ↔ pbf_files ≠ [] ∧ forallb (builds env) pbf_files = true).
Proof.
  destruct pbf_files as [|pbf rest]; [split; [by right|by split; [|intros [? _]]]|].
  rewrite main_nonempty by done.
  pose proof (for_regions_status env (pbf :: rest) initial_world) as Hstatus.
  destruct (for_regions env (pbf :: rest) initial_world) as [[[]|e] w]; simpl in *.
  - split; [by left|]. split; [|done]. intros _. split; [done|]. by apply Hstatus.
  - split; [by right|]. split; [done|]. intros [_ Hall]. by apply Hstatus in Hall.
Qed.

(** X19: when every build reaches its end, the run executes, for each extract
    in turn, the filter command and then the export command, and nothing
    else; it commits one database and reports one count per extract, in the
    order of the extracts; and the database of an extract is the one its own
    features give from the empty schema, independent of the other extracts. *)
Theorem main_success (env : environment) (pbf_files : list string) :
  pbf_files ≠ [] →
  forallb (builds env) pbf_files = true →
  main env pbf_files
  = (0, {| executed := pbf_files ≫= commands_of env;
           databases :=
             (λ pbf, (pbf, cur (state_after (random_rowid env pbf)
                                  (geojson env pbf))))
             <$> pbf_files;
           reported :=
             (λ pbf, (pbf, imported (state_after (random_rowid env pbf)
                                       (geojson env pbf))))
             <$> pbf_files |}).
Proof.
  intros Hne Hall. rewrite main_nonempty by done.
  by rewrite (for_regions_ok _ _ _ Hall).
Qed.

Lemma main_success_witness :
  main one_region ["a.osm.pbf"; "b.osm.pbf"]
  = (0, {| executed := ["a.osm.pbf"; "b.osm.pbf"] ≫= commands_of one_region;
           databases :=
             [("a.osm.pbf", cur (state_after no_rowids synthetic_extract));
              ("b.osm.pbf", cur (state_after no_rowids synthetic_extract))];
           reported := [("a.osm.pbf", 4); ("b.osm.pbf", 4)] |}).
Proof.
  apply (main_success one_region ["a.osm.pbf"; "b.osm.pbf"]); [done|reflexivity].
Defined.

(** X20: the run stops at the first build that does not reach its end,
    whatever stops it, an engine step or an exception of the import: the
    exit status and everything the run leaves behind are the same as if the
    extracts after it were not there. *)
Theorem nothing_runs_after_a_failed_build
    (env : environment) (before : list string) (pbf : string) (after : list string) :
  builds env pbf = false →
  main env (before ++ pbf :: after) = main env (before ++ [pbf])
  ∧ (main env (before ++ pbf :: after)).1 = 1.
Proof.
  intros Hpbf.
  assert (∀ rest, main env (before ++ pbf :: rest)
                  = match for_regions env before initial_world with
                    | (Ok _, w) => (1, (build_region env pbf w).2)
                    | (Raise _, w) => (1, w)
                    end) as Hmain.
  { intros rest. rewrite main_nonempty by (by destruct before).
    rewrite for_regions_app.
    destruct (for_regions env before initial_world) as [[[]|e] w]; [|done].
    rewrite for_regions_cons.
    by destruct (build_region_not_ok env pbf w Hpbf) as (e & w' & ->). }
  rewrite !Hmain. split; [done|].
  by destruct (for_regions env before initial_world) as [[[]|e] w].
Qed.

Lemma nothing_runs_after_a_failed_build_witness :
  main bad_second_extract (["a.osm.pbf"] ++ "b.osm.pbf" :: ["c.osm.pbf"])
  = (1, {| executed := ["a.osm.pbf"; "b.osm.pbf"] ≫= commands_of bad_second_extract;
           databases := [("a.osm.pbf", cur (state_after no_rowids synthetic_extract))];
           reported := [("a.osm.pbf", 4)] |}).
Proof.
  rewrite (proj1 (nothing_runs_after_a_failed_build bad_second_extract
                    ["a.osm.pbf"] "b.osm.pbf" ["c.osm.pbf"] eq_refl)).
  reflexivity.
Defined.

Lemma build_region_filter_fails (env : environment) (pbf : string) (w : world) :
  osmium env (TagsFilter pbf (load_tags env)) ≠ 0 →
  build_region env pbf w
  = (Raise (CalledProcessError (osmium env (TagsFilter pbf (load_tags env)))),
     {| executed := executed w ++ [TagsFilter pbf (load_tags env)];
        databases := databases w; reported := reported w |}).
Proof.
  intros Hfilter. unfold build_region, and_then, run.
  by rewrite (bool_decide_eq_false_2 _ Hfilter).
Qed.

(** X21: when the filter step exits nonzero for an extract, the export step
    is never run for it. *)
Theorem failed_filter_prevents_export
    (env : environment) (before : list string) (pbf : string) (after : list string) :
  NoDup (before ++ pbf :: after) →
  osmium env (TagsFilter pbf (load_tags env)) ≠ 0 →
  Export pbf ∉ executed (main env (before ++ pbf :: after)).2.
Proof.
  intros Hnodup Hfilter.
  apply NoDup_app in Hnodup as (_ & Hdisj & _).
  assert (pbf ∉ before) as Hpbf.
  { intros Hin. apply (Hdisj pbf Hin). apply elem_of_cons. by left. }
  rewrite main_nonempty by (by destruct before).
  rewrite for_regions_app.
  destruct (for_regions_extends env before initial_world)
    as (log & dbs & He & _ & Hl & _).
  assert (Export pbf ∉ log) as Hlog.
  { intros Hin. rewrite Forall_forall in Hl. by apply Hl in Hin. }
  destruct (for_regions env before initial_world) as [[[]|e] w]; simpl in He.
  - rewrite for_regions_cons, (build_region_filter_fails _ _ _ Hfilter). simpl.
    rewrite He. simpl. intros [Hin|Hin]%elem_of_app; [done|].
    by apply list_elem_of_singleton in Hin.
  - simpl. by rewrite He.
Qed.

Lemma failed_filter_prevents_export_witness :
  Export "a.osm.pbf" ∉ executed (main failing_filter ([] ++ "a.osm.pbf" :: ["b.osm.pbf"])).2.
Proof.
  apply failed_filter_prevents_export.
  - apply (bool_decide_unpack _). reflexivity.
  - discriminate.
Defined.

(** ** Names *)

(** X22: a name tag that is not empty is the name, whatever historic says;
    without one, the only names the loop can derive are "Standing Stone",
    "Megalith" and "Stone". *)
Theorem derived_name_cases (props : properties) :
  (truthy (get props "name") = true → derived_name props = get props "name")
  ∧ (truthy (get props "name") = false →
     ∀ name, if_truthy (derived_name props) = Some name →
             name ∈ ["Standing Stone"; "Megalith"; "Stone"]).
Proof.
  unfold derived_name. split; intros Hname; rewrite Hname; [done|].
  cbn [negb andb].
  destruct (in_strs (get props "historic") ["standing_stone"; "megalith"; "stone"])
    eqn:Hhist.
  - apply in_strs_get_default in Hhist.
    intros name [[= <-] _]%if_truthy_Some.
    repeat (apply elem_of_cons in Hhist as [->|Hhist];
            [apply (bool_decide_unpack _); reflexivity|]).
    by apply elem_of_nil in Hhist.
  - intros name. unfold if_truthy. by rewrite Hname.
Qed.

Lemma derived_name_cases_witness :
  derived_name (props_of the_crown) = Some "The Crown"
  ∧ "Megalith" ∈ ["Standing Stone"; "Megalith"; "Stone"].
Proof.
  split.
  - apply (proj1 (derived_name_cases (props_of the_crown))). reflexivity.
  - apply (proj2 (derived_name_cases
                    (tags_of [("name", ""); ("historic", "megalith")])));
      reflexivity.
Defined.

(** ** File names *)

Lemma rfind_dot_app (base suffix : string) (j : nat) :
  RegionName.rfind_dot suffix = Some j →
  RegionName.rfind_dot (base +:+ suffix) = Some (String.length base + j)%nat.
Proof.
  intros Hj. induction base as [|c base IH]; [done|].
  simpl. by rewrite IH.
Qed.

Lemma take_chars_app (base suffix : string) :
  RegionName.take_chars (String.length base) (base +:+ suffix) = base.
Proof.
  induction base as [|c base IH]; simpl.
  - by destruct suffix.
  - by rewrite IH.
Qed.

Lemma length_append (a b : string) :
  String.length (a +:+ b) = (String.length a + String.length b)%nat.
Proof. induction a as [|c a IH]; simpl; [done|]. by rewrite IH. Qed.

Lemma stem_pbf (base : string) :
  base ≠ EmptyString → RegionName.stem (base +:+ ".pbf") = base.
Proof.
  intros Hne. unfold RegionName.stem.
  rewrite (rfind_dot_app base ".pbf" 0 eq_refl), Nat.add_0_r, length_append.
  simpl String.length.
  destruct base as [|c base]; [done|]. simpl String.length.
  assert ((0 <? S (String.length base))
          && (S (String.length base) <? S (String.length base) + 4 - 1) = true)%nat
    as ->.
  { apply andb_true_iff. split; apply Nat.ltb_lt; lia. }
  apply (take_chars_app (String c base)).
Qed.

Lemma starts_with_length (p s : string) :
  RegionName.starts_with p s = true → (String.length p ≤ String.length s)%nat.
Proof.
  revert s. induction p as [|a p IH]; intros [|b s]; simpl; try done; try lia.
  intros [_ H]%andb_true_iff. apply IH in H. lia.
Qed.

Lemma append_empty (s : string) : EmptyString +:+ s = s.
Proof. reflexivity. Qed.

Lemma append_String (c : ascii) (a b : string) : String c a +:+ b = String c (a +:+ b).
Proof. reflexivity. Qed.

Lemma append_assoc (a b c : string) : (a +:+ b) +:+ c = a +:+ (b +:+ c).
Proof.
  induction a as [|x a IH]; [done|]. by rewrite !append_String, IH.
Qed.

Lemma starts_with_app_absent (p base : string) (d : ascii) (rest : string) :
  RegionName.has_char d p = false →
  RegionName.starts_with p (base +:+ String d rest) = RegionName.starts_with p base.
Proof.
  revert base. induction p as [|a p IH]; intros base Hd; [by destruct base|].
  cbn [RegionName.has_char] in Hd. apply orb_false_iff in Hd as [Hda Hd].
  destruct base as [|b base];
    rewrite ?append_empty, ?append_String; cbn [RegionName.starts_with].
  - by rewrite Ascii.eqb_sym, Hda.
  - by rewrite IH.
Qed.

Lemma starts_with_app (a : ascii) (p base : string) (d : ascii) (rest : string) :
  RegionName.has_char d p = false →
  base ≠ EmptyString →
  RegionName.starts_with (String a p) (base +:+ String d rest)
  = RegionName.starts_with (String a p) base.
Proof.
  intros Hd Hne. destruct base as [|b base]; [done|].
  rewrite append_String. cbn [RegionName.starts_with].
  by rewrite starts_with_app_absent.
Qed.

Lemma replace_from_app (a : ascii) (p new base : string) (d : ascii) (rest : string) :
  RegionName.has_char d p = false →
  ∀ skip, (skip ≤ String.length base)%nat →
    RegionName.replace_from skip (String a p) new (base +:+ String d rest)
    = RegionName.replace_from skip (String a p) new base
      +:+ RegionName.replace_from 0 (String a p) new (String d rest).
Proof.
  intros Hd. induction base as [|c base IH]; intros skip Hskip.
  - simpl in Hskip. by replace skip with O by lia.
  - change (String c base +:+ String d rest)
      with (String c (base +:+ String d rest)).
    destruct skip as [|k].
    + cbn [RegionName.replace_from].
      change (String c (base +:+ String d rest))
        with (String c base +:+ String d rest).
      rewrite (starts_with_app a p (String c base) d rest Hd) by done.
      destruct (RegionName.starts_with (String a p) (String c base)) eqn:Hstart.
      * apply starts_with_length in Hstart. simpl in Hstart.
        rewrite IH by (simpl; lia).
        by rewrite append_assoc.
      * by rewrite IH by lia.
    + cbn [RegionName.replace_from]. apply IH. simpl in Hskip. lia.
Qed.

Lemma replace_from_absent (a : ascii) (p new s : string) :
  RegionName.has_char a s = false →
  RegionName.replace_from 0 (String a p) new s = s.
Proof.
  induction s as [|c s IH]; [done|]. cbn [RegionName.has_char].
  intros [Hc Hs]%orb_false_iff. cbn [RegionName.replace_from RegionName.starts_with].
  by rewrite Hc, IH.
Qed.

(** X23: only the last suffix of the file name is dropped, so the region name
    keeps [.osm]: for an extract named base-latest.osm.pbf the database is
    named after base with its occurrences of -latest removed, followed by
    .osm.sqlite; that is base.osm.sqlite when base has no hyphen. *)
Theorem region_name_of_latest (base : string) :
  RegionName.region_name (base +:+ "-latest.osm.pbf")
  = RegionName.replace_all "-latest" "" base +:+ ".osm"
  ∧ RegionName.sqlite_db (base +:+ "-latest.osm.pbf")
    = RegionName.replace_all "-latest" "" base +:+ ".osm.sqlite"
  ∧ (RegionName.has_char "-" base = false →
     RegionName.sqlite_db (base +:+ "-latest.osm.pbf") = base +:+ ".osm.sqlite").
Proof.
  assert (RegionName.region_name (base +:+ "-latest.osm.pbf")
          = RegionName.replace_all "-latest" "" base +:+ ".osm") as Hname.
  { unfold RegionName.region_name, RegionName.replace_all.
    change "-latest.osm.pbf" with ("-latest.osm" +:+ ".pbf").
    rewrite <- append_assoc, stem_pbf by (by destruct base).
    by rewrite (replace_from_app "-" "latest" "" base "-" "latest.osm" eq_refl 0)
      by lia. }
  split; [exact Hname|].
  assert (RegionName.sqlite_db (base +:+ "-latest.osm.pbf")
          = RegionName.replace_all "-latest" "" base +:+ ".osm.sqlite") as Hdb.
  { unfold RegionName.sqlite_db. by rewrite Hname, append_assoc. }
  split; [exact Hdb|].
  intros Hdash. rewrite Hdb. unfold RegionName.replace_all.
  by rewrite replace_from_absent.
Qed.

Lemma region_name_of_latest_witness :
  RegionName.sqlite_db ("wales" +:+ "-latest.osm.pbf") = "wales" +:+ ".osm.sqlite".
Proof.
  apply (proj2 (proj2 (region_name_of_latest "wales"))). reflexivity.
Defined.

(** X24: base-latest.osm.pbf and base.osm.pbf have the same region name, and
    so the same temporary files and the same database file. *)
Theorem latest_and_plain_share_names (base : string) :
  RegionName.region_name (base +:+ "-latest.osm.pbf")
  = RegionName.region_name (base +:+ ".osm.pbf")
  ∧ RegionName.filtered_pbf (base +:+ "-latest.osm.pbf")
    = RegionName.filtered_pbf (base +:+ ".osm.pbf")
  ∧ RegionName.geojson (base +:+ "-latest.osm.pbf")
    = RegionName.geojson (base +:+ ".osm.pbf")
  ∧ RegionName.sqlite_db (base +:+ "-latest.osm.pbf")
    = RegionName.sqlite_db (base +:+ ".osm.pbf").
Proof.
  assert (RegionName.region_name (base +:+ "-latest.osm.pbf")
          = RegionName.region_name (base +:+ ".osm.pbf")) as Hname.
  { unfold RegionName.region_name, RegionName.replace_all.
    change "-latest.osm.pbf" with ("-latest.osm" +:+ ".pbf").
    change ".osm.pbf" with (".osm" +:+ ".pbf").
    rewrite <- !append_assoc, !stem_pbf by (by destruct base).
    rewrite (replace_from_app "-" "latest" "" base "-" "latest.osm" eq_refl 0) by lia.
    by rewrite (replace_from_app "-" "latest" "" base "." "osm" eq_refl 0) by lia. }
  unfold RegionName.filtered_pbf, RegionName.geojson, RegionName.sqlite_db.
  by rewrite Hname.
Qed.
